(** * Snake game: the session controller and the score tracker

    A shallow embedding of [Snake_Game_files/main.py] and
    [Snake_Game_files/scoreboard.py].

    The program is a single cooperative control flow over a Tk window.  It is
    embedded as a state-and-exception monad over a [World] that holds the two
    module-level flags ([game_on], [is_on_close]), the score file, the window
    and the log of the calls made to the window, to the clock, to the file
    and to the turtles.  Everything the environment decides (answers typed
    into the prompts, key presses, activations of the close button, the
    random position of the food) is read from a script; a program that needs
    more input than the script holds is [Blocked].

    The classes Snake and Food (snake.py, food.py) are not among the sources:
    the creature's methods are the fields of [SnakeOps], over which the
    controller is parametric, and the food is its position.

    Conventions.
    - Text is a [string] whose characters are code points U+0000..U+00FF.
    - Coordinates are integers; [a.distance(b) < r] is [dist2 a b < r * r].
    - Durations are in milliseconds.
    - The close handler runs to completion whenever the window processes its
      events ([textinput], [window.update()], the refresh inside [move],
      [exitonclick]); [time.sleep] processes none. *)

From Stdlib Require Import ZArith List Bool Ascii String Lia.
From Stdlib Require Decimal DecimalString DecimalZ.
Import ListNotations.

Local Open Scope Z_scope.

(** ** Python text primitives *)

Module Py.

Definition code (c : ascii) : N := N_of_ascii c.

(** [c] is one of the ASCII digits [0..9]. *)
Definition is_decimal (c : ascii) : bool :=
  (48 <=? code c)%N && (code c <=? 57)%N.

Definition digit_value (c : ascii) : Z := Z.of_N (code c) - 48.

(** [str.isdigit] for one character: the ASCII digits and the superscript
    digits U+00B2, U+00B3 and U+00B9. *)
Definition is_digit_char (c : ascii) : bool :=
  is_decimal c || (code c =? 178)%N || (code c =? 179)%N || (code c =? 185)%N.

Fixpoint all_digit_chars (s : string) : bool :=
  match s with
  | EmptyString => true
  | String c r => is_digit_char c && all_digit_chars r
  end.

(** [s.isdigit()]: at least one character, and all of them digits. *)
Definition isdigit (s : string) : bool :=
  match s with
  | EmptyString => false
  | String _ _ => all_digit_chars s
  end.

(** White space skipped by [int()] around the literal: TAB, LF, VT, FF, CR,
    SPACE, and the two non-ASCII spaces U+0085 and U+00A0. *)
Definition is_space (c : ascii) : bool :=
  ((9 <=? code c)%N && (code c <=? 13)%N)
  || (code c =? 32)%N || (code c =? 133)%N || (code c =? 160)%N.

Fixpoint lstrip (s : string) : string :=
  match s with
  | EmptyString => EmptyString
  | String c r => if is_space c then lstrip r else s
  end.

Fixpoint rstrip (s : string) : string :=
  match s with
  | EmptyString => EmptyString
  | String c r =>
      match rstrip r with
      | EmptyString => if is_space c then EmptyString else String c EmptyString
      | r' => String c r'
      end
  end.

Definition strip (s : string) : string := rstrip (lstrip s).

Definition is_underscore (c : ascii) : bool := (code c =? 95)%N.

(** The digits of a literal after the first one: a digit, or one underscore
    followed by a digit. *)
Fixpoint digits_from (acc : Z) (s : string) : option Z :=
  match s with
  | EmptyString => Some acc
  | String c r =>
      if is_decimal c then digits_from (10 * acc + digit_value c) r
      else if is_underscore c then
        match r with
        | String d r' =>
            if is_decimal d then digits_from (10 * acc + digit_value d) r'
            else None
        | EmptyString => None
        end
      else None
  end.

Definition digits (s : string) : option Z :=
  match s with
  | String c r => if is_decimal c then digits_from (digit_value c) r else None
  | EmptyString => None
  end.

(** [int(s)] in base ten; [None] stands for [ValueError]. *)
Definition int (s : string) : option Z :=
  match strip s with
  | String c r =>
      if (code c =? 45)%N then option_map Z.opp (digits r)
      else if (code c =? 43)%N then digits r
      else digits (String c r)
  | EmptyString => None
  end.

(** [str(n)] and [f"{n}"] for an integer. *)
Definition str (n : Z) : string := DecimalString.NilEmpty.string_of_int (Z.to_int n).

(** [str.lower] for one character. *)
Definition lower_char (c : ascii) : ascii :=
  let n := code c in
  if ((65 <=? n)%N && (n <=? 90)%N)
     || ((192 <=? n)%N && (n <=? 222)%N && negb (n =? 215)%N)
  then ascii_of_N (n + 32) else c.

Fixpoint lower (s : string) : string :=
  match s with
  | EmptyString => EmptyString
  | String c r => String (lower_char c) (lower r)
  end.

(** [str(x)] for a value that is a string or [None]. *)
Definition str_opt (x : option string) : string :=
  match x with
  | Some s => s
  | None => "None"%string
  end.

(** Helpers for the facts about [int] and [str]. *)

Fixpoint no_space (s : string) : bool :=
  match s with
  | EmptyString => true
  | String c r => negb (is_space c) && no_space r
  end.

(** Value of a digit sequence read after the prefix worth [acc]. *)
Fixpoint uint_value (acc : Z) (d : Decimal.uint) : Z :=
  match d with
  | Decimal.Nil => acc
  | Decimal.D0 d => uint_value (10 * acc) d
  | Decimal.D1 d => uint_value (10 * acc + 1) d
  | Decimal.D2 d => uint_value (10 * acc + 2) d
  | Decimal.D3 d => uint_value (10 * acc + 3) d
  | Decimal.D4 d => uint_value (10 * acc + 4) d
  | Decimal.D5 d => uint_value (10 * acc + 5) d
  | Decimal.D6 d => uint_value (10 * acc + 6) d
  | Decimal.D7 d => uint_value (10 * acc + 7) d
  | Decimal.D8 d => uint_value (10 * acc + 8) d
  | Decimal.D9 d => uint_value (10 * acc + 9) d
  end.

Definition nonempty (d : Decimal.uint) : bool :=
  match d with
  | Decimal.Nil => false
  | _ => true
  end.

End Py.

(** ** Events, world and the control monad *)

Definition Pos : Type := (Z * Z)%type.

Inductive Key := KeyDown | KeyUp | KeyLeft | KeyRight.

(** The turtles that write text: the module-level [WRITE_MESSAGE], the
    temporary writer of [show_start_screen], and the [Score] object. *)
Inductive Writer := WriteMessage | StartWriter | ScoreWriter.

Inductive Message :=
| MsgWelcome
| MsgDragon
| MsgGoodbye
| MsgSpeedHint
| MsgInvalidEntry (entry : string)
| MsgScoreLine (current best : Z)
| MsgGameOver (best : Z).

Inductive Dialog := AskSpeed | AskSpeedAgain | AskNewGame.

Inductive TurtleOp :=
| Goto (p : Pos)
| Write (m : Message)
| Clear
| Color (c : string).

Inductive Event :=
| EvSleep (ms : Z)
| EvClearTerminal
| EvScreen                              (* Screen(), title, setup, tracer(0) *)
| EvBgColor (c : string)
| EvWindowClear
| EvWindowUpdate
| EvTurtle (t : Writer) (op : TurtleOp)
| EvTextInput (d : Dialog)
| EvFileRead                            (* the score file is opened and read *)
| EvFileWrite (text : string)           (* the score file is overwritten *)
| EvProtocol                            (* on_close registered *)
| EvCloseButton                         (* on_close entered *)
| EvDestroy                             (* tk_window.destroy() *)
| EvNewFood (c : string)
| EvNewSnake (speed : Z)
| EvNewScore
| EvFoodAt (p : Pos)
| EvSnakeMove
| EvSnakeExtend
| EvHideSnake
| EvHideFood
| EvListen
| EvOnKey (k : Key)
| EvExitOnClick.

Record World := mkWorld {
  game_on : bool;
  is_on_close : bool;
  handler : bool;                 (* on_close is the window's close handler *)
  window : bool;                  (* the Tk window has not been destroyed *)
  score_file : option string;     (* last-score.txt; None: no such file *)
  log : list Event                (* newest first *)
}.

Definition trace (w : World) : list Event := List.rev (log w).

Definition with_game_on (b : bool) (w : World) : World :=
  mkWorld b (is_on_close w) (handler w) (window w) (score_file w) (log w).
Definition with_is_on_close (b : bool) (w : World) : World :=
  mkWorld (game_on w) b (handler w) (window w) (score_file w) (log w).
Definition with_handler (b : bool) (w : World) : World :=
  mkWorld (game_on w) (is_on_close w) b (window w) (score_file w) (log w).
Definition with_window (b : bool) (w : World) : World :=
  mkWorld (game_on w) (is_on_close w) (handler w) b (score_file w) (log w).
Definition with_score_file (f : option string) (w : World) : World :=
  mkWorld (game_on w) (is_on_close w) (handler w) (window w) f (log w).
Definition logged (e : Event) (w : World) : World :=
  mkWorld (game_on w) (is_on_close w) (handler w) (window w) (score_file w)
          (e :: log w).

Inductive Exn := ValueError | FileNotFoundError.

(** Outcome of a computation: a value, an exception that propagates, or a
    program waiting for input the script does not hold. *)
Inductive Res (A : Type) :=
| Ok (a : A) (w : World)
| Raise (e : Exn) (w : World)
| Blocked (w : World).
Arguments Ok {A} a w.
Arguments Raise {A} e w.
Arguments Blocked {A} w.

Definition M (A : Type) : Type := World -> Res A.

Definition ret {A} (a : A) : M A := fun w => Ok a w.

Definition bind {A B} (m : M A) (k : A -> M B) : M B :=
  fun w =>
    match m w with
    | Ok a w' => k a w'
    | Raise e w' => Raise e w'
    | Blocked w' => Blocked w'
    end.

Definition raise {A} (e : Exn) : M A := fun w => Raise e w.
Definition blocked {A} : M A := fun w => Blocked w.
Definition gets {A} (f : World -> A) : M A := fun w => Ok (f w) w.
Definition modify (f : World -> World) : M unit := fun w => Ok tt (f w).
Definition emit (e : Event) : M unit := modify (logged e).

Declare Scope game_scope.
Delimit Scope game_scope with game.
Notation "x <- m ;; k" := (bind m (fun x => k))
  (at level 61, m at next level, right associativity) : game_scope.
Notation "m ;; k" := (bind m (fun _ => k))
  (at level 61, right associativity) : game_scope.
Local Open Scope game_scope.

Definition world_of {A} (r : Res A) : World :=
  match r with
  | Ok _ w => w
  | Raise _ w => w
  | Blocked w => w
  end.

Fixpoint for_each {A} (l : list A) (body : A -> M unit) : M unit :=
  match l with
  | [] => ret tt
  | a :: l' => body a ;; for_each l' body
  end.

(** ** Turtles, the clock and the close button *)

Definition turtle (t : Writer) (op : TurtleOp) : M unit := emit (EvTurtle t op).

Definition sleep (ms : Z) : M unit := emit (EvSleep ms).

Definition show_goodbye_message : M unit :=
  emit EvWindowClear ;;
  emit (EvBgColor "black") ;;
  turtle WriteMessage (Write MsgGoodbye).

(** [tk_window.destroy()].  Calls the program makes once the window is gone
    are logged like any other; the errors Tk answers them with are not
    modelled. *)
Definition destroy : M unit :=
  emit EvDestroy ;; modify (with_window false).

(** [on_close], the handler of the window manager's close button. *)
Definition on_close : M unit :=
  emit EvCloseButton ;;
  g <- gets game_on ;;
  c <- gets is_on_close ;;
  (if negb g && c then destroy else show_goodbye_message) ;;
  modify (with_game_on false) ;;
  modify (with_is_on_close true).

(** One activation of the close button.  The handler runs to completion
    (single cooperative control flow); the button belongs to the window, so
    it notifies [on_close] only once that is registered and while the window
    exists. *)
Definition click (w : World) : World :=
  if handler w && window w then world_of (on_close w) else w.

(** The window processes its pending events: [n] activations of the close
    button are delivered. *)
Definition pump (n : nat) : M unit := modify (Nat.iter n click).

Record Ask := mkAsk {
  clicks : nat;               (* close button, while the dialog is open *)
  answer : option string      (* None: the dialog was cancelled *)
}.

Definition textinput (d : Dialog) (a : Ask) : M (option string) :=
  emit (EvTextInput d) ;;
  pump (clicks a) ;;
  ret (answer a).

Definition window_update (n : nat) : M unit :=
  emit EvWindowUpdate ;; pump n.

(** ** scoreboard.py: class Score *)

Definition write_file (s : string) : M unit :=
  emit (EvFileWrite s) ;;
  modify (with_score_file (Some s)).

(** [Score.__init__]; the result is the numeric counter [self.score]. *)
Definition Score_init : M Z :=
  emit EvNewScore ;;
  f <- gets score_file ;;
  (match f with
   | None => write_file "0"
   | Some _ => ret tt
   end) ;;
  turtle ScoreWriter (Color "violet") ;;
  turtle ScoreWriter (Goto (0, 350)) ;;
  ret 0.

Definition save_score (score : Z) : M unit :=
  write_file (Py.str score).

Definition read_file_score : M Z :=
  emit EvFileRead ;;
  f <- gets score_file ;;
  match f with
  | None => raise FileNotFoundError
  | Some s =>
      match Py.int s with
      | Some n => ret n
      | None => raise ValueError
      end
  end.

Definition score_update (score : Z) : M unit :=
  turtle ScoreWriter Clear ;;
  best <- read_file_score ;;
  turtle ScoreWriter (Write (MsgScoreLine score best)).

Definition angels : list Pos :=
  [(-470, 330); (-470, -330); (430, 330); (430, -330)].

(** [Score.game_over]; [n] is what the close button does while
    [window.update()] runs. *)
Definition game_over (n : nat) (score : Z) : M unit :=
  saved <- read_file_score ;;
  (if score >? saved then save_score score else ret tt) ;;
  turtle ScoreWriter (Goto (0, 0)) ;;
  emit (EvBgColor "crimson") ;;
  turtle ScoreWriter (Color "peach puff") ;;
  best <- read_file_score ;;
  turtle ScoreWriter (Write (MsgGameOver best)) ;;
  for_each angels (fun i =>
    turtle ScoreWriter (Goto i) ;;
    turtle ScoreWriter (Write MsgDragon)) ;;
  window_update n.

Definition hide_score : M unit := turtle ScoreWriter Clear.

(** ** The creature and the item *)

Inductive Heading := North | South | West | East.

(** Modelled from the spec: snake.py is not among the sources.  The record
    holds the two attributes main.py reads, [turtles] and [head], and the
    heading and the vacated tail slot of the creature of the spec's data
    model. *)
Record Snake := mkSnake {
  turtles : list Pos;
  head : Pos;
  heading : Heading;
  vacated : Pos
}.

(** The methods of the missing class that main.py calls.  [move] receives the
    direction keys handled since the previous move. *)
Class SnakeOps := {
  new_snake : Z -> Snake;
  move : list Key -> Snake -> Snake;
  snake_extend : Snake -> Snake
}.

Definition xcor (p : Pos) : Z := fst p.
Definition ycor (p : Pos) : Z := snd p.

Definition dist2 (a b : Pos) : Z :=
  (xcor a - xcor b) * (xcor a - xcor b) + (ycor a - ycor b) * (ycor a - ycor b).

(** [a.distance(b) < r] *)
Definition closer_than (r : Z) (a b : Pos) : bool := dist2 a b <? r * r.

(** [l[:-2]] *)
Definition but_last_two {A} (l : list A) : list A :=
  List.firstn (List.length l - 2) l.

(** ** main.py *)

Record Game := mkGame {
  food : Pos;
  snake : Snake;
  score : Z
}.

(** Which arm of the per-tick conditional ran. *)
Inductive Outcome := Border | Ate | Bit | Moved.

Record TickEnv := mkTick {
  keys : list Key;        (* direction keys handled before the move *)
  move_clicks : nat;      (* close button, during the refresh inside move *)
  food_roll : Pos;        (* where apear_food would put the food *)
  over_clicks : nat       (* close button, during game_over's update *)
}.

Record Retry := mkRetry {
  hint_clicks : nat;      (* close button, while the hint is on screen *)
  retry_ask : Ask
}.

Record SessionEnv := mkSession {
  speed_ask : Ask;
  speed_retries : list Retry;
  start_clicks : nat;     (* close button, during the start screen *)
  first_food : Pos;
  ticks : list TickEnv
}.

Record Round := mkRound {
  new_game_ask : Ask;
  invalid_clicks : nat;   (* close button, while "Invalid entry" is shown *)
  session : SessionEnv
}.

Record ProgramEnv := mkProgram {
  first_session : SessionEnv;
  rounds : list Round;
  exit_clicks : nat       (* close button, during exitonclick's main loop *)
}.

Definition decorative_angels : list Pos :=
  [(-470, 330); (-470, -330); (430, 330); (430, -330)].

Definition show_start_screen (n : nat) : M unit :=
  emit (EvNewFood "lavender") ;;
  turtle StartWriter (Goto (0, 330)) ;;
  turtle StartWriter (Write MsgWelcome) ;;
  turtle StartWriter (Color "violet") ;;
  for_each decorative_angels (fun coord =>
    turtle StartWriter (Goto coord) ;;
    turtle StartWriter (Write MsgDragon)) ;;
  window_update n ;;
  sleep 1000 ;;
  turtle StartWriter Clear.

(** The condition of the validation loop:
    [not str(speed).isdigit() or int(str(speed)) > 20 or int(str(speed)) < 10] *)
Definition speed_rejected (speed : string) : M bool :=
  if negb (Py.isdigit speed) then ret true
  else
    match Py.int speed with
    | None => raise ValueError
    | Some n => ret ((n >? 20) || (n <? 10))
    end.

(** The validation loop; [None] stands for main's early [return False]. *)
Fixpoint validate_speed (rs : list Retry) (speed : string) : M (option string) :=
  rejected <- speed_rejected speed ;;
  if rejected then
    match rs with
    | [] => blocked
    | r :: rs' =>
        turtle WriteMessage (Write MsgSpeedHint) ;;
        window_update (hint_clicks r) ;;
        sleep 1500 ;;
        turtle WriteMessage Clear ;;
        again <- textinput AskSpeedAgain (retry_ask r) ;;
        match again with
        | None => show_goodbye_message ;; ret None
        | Some s => validate_speed rs' s
        end
    end
  else ret (Some speed).

Definition prompt_speed (e : SessionEnv) : M (option string) :=
  speed <- textinput AskSpeed (speed_ask e) ;;
  match speed with
  | None => show_goodbye_message ;; ret None
  | Some s => validate_speed (speed_retries e) s
  end.

Definition border_hit (p : Pos) : bool :=
  ((xcor p >? 485) || (xcor p <? -485)) || ((ycor p >? 385) || (ycor p <? -385)).

(** The statements shared by the two terminal arms of the tick. *)
Definition end_session (n : nat) (sc : Z) : M unit :=
  modify (with_game_on false) ;;
  sleep 300 ;;
  emit EvHideSnake ;;
  hide_score ;;
  emit EvHideFood ;;
  game_over n sc.

(** [for segment in snake.turtles[:-2]: if ...: (end the session); break];
    the result tells whether the loop broke. *)
Fixpoint bite_scan (n : nat) (sc : Z) (h : Pos) (segments : list Pos) : M bool :=
  match segments with
  | [] => ret false
  | segment :: rest =>
      if closer_than 10 h segment then end_session n sc ;; ret true
      else bite_scan n sc h rest
  end.

Definition bind_keys : M unit :=
  emit EvListen ;;
  emit (EvOnKey KeyDown) ;;
  emit (EvOnKey KeyUp) ;;
  emit (EvOnKey KeyLeft) ;;
  emit (EvOnKey KeyRight).

Section Controller.

Context {ops : SnakeOps}.

(** The conditional of the loop body (main.py, lines 210-242), on the
    creature [s] as [move] left it. *)
Definition checks (e : TickEnv) (g : Game) (s : Snake) : M (Outcome * Game) :=
  if border_hit (head s) then
    end_session (over_clicks e) (score g) ;;
    ret (Border, mkGame (food g) s (score g))
  else if closer_than 15 (head s) (food g) then
    emit (EvFoodAt (food_roll e)) ;;
    emit EvSnakeExtend ;;
    ret (Ate, mkGame (food_roll e) (snake_extend s) (score g + 1))
  else
    broke <- bite_scan (over_clicks e) (score g) (head s)
                       (but_last_two (turtles s)) ;;
    ret (if broke then Bit else Moved, mkGame (food g) s (score g)).

(** One pass through the body of [while game_on]. *)
Definition tick (e : TickEnv) (g : Game) : M (Outcome * Game) :=
  sleep 50 ;;
  score_update (score g) ;;
  emit EvSnakeMove ;;
  window_update (move_clicks e) ;;
  r <- checks e g (move (keys e) (snake g)) ;;
  bind_keys ;;
  ret r.

Fixpoint play (es : list TickEnv) (g : Game) : M Game :=
  on <- gets game_on ;;
  if on then
    match es with
    | [] => blocked
    | e :: es' => r <- tick e g ;; play es' (snd r)
    end
  else ret g.

Definition main (e : SessionEnv) : M bool :=
  modify (with_game_on true) ;;
  emit EvScreen ;;
  emit (EvBgColor "slate blue") ;;
  speed <- prompt_speed e ;;
  match speed with
  | None => ret false
  | Some sp =>
      emit EvProtocol ;;
      modify (with_handler true) ;;
      show_start_screen (start_clicks e) ;;
      emit (EvNewFood "lime") ;;
      n <- match Py.int sp with
           | Some n => ret n
           | None => raise ValueError
           end ;;
      emit (EvNewSnake n) ;;
      sc <- Score_init ;;
      emit (EvFoodAt (first_food e)) ;;
      g <- play (ticks e) (mkGame (first_food e) (new_snake n) sc) ;;
      (* snake.turtles = []: the creature is dropped on return *)
      closed <- gets is_on_close ;;
      if closed then ret false else ret true
  end.

(** The replay loop at module level. *)
Fixpoint replay (rs : list Round) : M unit :=
  closed <- gets is_on_close ;;
  if negb closed then
    match rs with
    | [] => blocked
    | r :: rs' =>
        new_game <- textinput AskNewGame (new_game_ask r) ;;
        if String.eqb (Py.lower (Py.str_opt new_game)) "y" then
          emit EvWindowClear ;;
          main (session r) ;;
          replay rs'
        else if String.eqb (Py.lower (Py.str_opt new_game)) "n"
                || match new_game with None => true | Some _ => false end then
          show_goodbye_message
        else
          emit EvWindowClear ;;
          emit (EvBgColor "black") ;;
          turtle WriteMessage (Write (MsgInvalidEntry (Py.str_opt new_game))) ;;
          window_update (invalid_clicks r) ;;
          sleep 1300 ;;
          turtle WriteMessage Clear ;;
          replay rs'
    end
  else ret tt.

(** The module body of main.py. *)
Definition program (e : ProgramEnv) : M unit :=
  emit EvClearTerminal ;;
  emit (EvNewFood "lavender") ;;
  again <- main (first_session e) ;;
  (if again then replay (rounds e) else ret tt) ;;
  emit EvExitOnClick ;;
  pump (exit_clicks e).

End Controller.

(** The world in which the program starts: window open, nothing logged. *)
Definition boot (file : option string) : World :=
  mkWorld false false false true file [].

(** ** A creature to run examples with *)

Module SpecSnake.

(** Modelled from the spec: snake.py is not among the sources.  The creature
    of the spec's sections 3 and 4.1, stored the way main.py reads it: the
    last two entries of [turtles] are the segment behind the head and the
    head.  It starts with six segments, heading east, the head at the
    origin, and moves 20 units per tick. *)

Definition step_size : Z := 20.

Definition forward (h : Heading) (p : Pos) : Pos :=
  match h with
  | North => (xcor p, ycor p + step_size)
  | South => (xcor p, ycor p - step_size)
  | West => (xcor p - step_size, ycor p)
  | East => (xcor p + step_size, ycor p)
  end.

Definition set_heading (s : Snake) (k : Key) : Snake :=
  mkSnake (turtles s) (head s)
          (match k with
           | KeyUp => North
           | KeyDown => South
           | KeyLeft => West
           | KeyRight => East
           end)
          (vacated s).

(** Every segment takes the place of the one in front of it, then the head
    moves one step along the heading. *)
Definition advance (s : Snake) : Snake :=
  match turtles s with
  | [] => s
  | tail :: body =>
      let h := forward (heading s) (head s) in
      mkSnake (body ++ [h]) h (heading s) tail
  end.

Definition spec_move (ks : list Key) (s : Snake) : Snake :=
  advance (fold_left set_heading ks s).

(** The new segment takes the slot the tail vacated in the last advance. *)
Definition grow (s : Snake) : Snake :=
  mkSnake (vacated s :: turtles s) (head s) (heading s) (vacated s).

Definition create (speed : Z) : Snake :=
  mkSnake [(-100, 0); (-80, 0); (-60, 0); (-40, 0); (-20, 0); (0, 0)]
          (0, 0) East (-120, 0).

Definition spec_ops : SnakeOps :=
  {| new_snake := create; move := spec_move; snake_extend := grow |}.

End SpecSnake.

(** * Vocabulary of the statements *)

(** ** Worlds and events *)

(** [es], oldest first, appended to the log. *)
Definition log_all (es : list Event) (w : World) : World :=
  mkWorld (game_on w) (is_on_close w) (handler w) (window w) (score_file w)
          (List.rev es ++ log w).

Definition goodbye_events : list Event :=
  [EvWindowClear; EvBgColor "black"; EvTurtle WriteMessage (Write MsgGoodbye)].

(** The events of one run of [on_close]. *)
Definition close_events (w : World) : list Event :=
  EvCloseButton ::
  (if negb (game_on w) && is_on_close w then [EvDestroy] else goodbye_events).

(** The world [on_close] leaves. *)
Definition closed (w : World) : World :=
  mkWorld false true (handler w)
          (if negb (game_on w) && is_on_close w then false else window w)
          (score_file w)
          (List.rev (close_events w) ++ log w).

(** What the close button may add to the log. *)
Definition closing (e : Event) : bool :=
  match e with
  | EvCloseButton | EvDestroy | EvWindowClear => true
  | EvBgColor c => String.eqb c "black"
  | EvTurtle WriteMessage (Write MsgGoodbye) => true
  | _ => false
  end.

(** The score file holds the integer [b]. *)
Definition stored (w : World) (b : Z) : Prop :=
  exists s, score_file w = Some s /\ Py.int s = Some b.

(** What the guarded [save_score] of [game_over] writes. *)
Definition save_events (sc b : Z) : list Event :=
  if sc >? b then [EvFileWrite (Py.str sc)] else [].

Definition persisted (sc b : Z) (w : World) : World :=
  if sc >? b
  then with_score_file (Some (Py.str sc)) (logged (EvFileWrite (Py.str sc)) w)
  else w.

Definition shown_best (sc b : Z) : Z := if sc >? b then sc else b.

Definition corner_events : list Event :=
  [EvTurtle ScoreWriter (Goto (-470, 330)); EvTurtle ScoreWriter (Write MsgDragon);
   EvTurtle ScoreWriter (Goto (-470, -330)); EvTurtle ScoreWriter (Write MsgDragon);
   EvTurtle ScoreWriter (Goto (430, 330)); EvTurtle ScoreWriter (Write MsgDragon);
   EvTurtle ScoreWriter (Goto (430, -330)); EvTurtle ScoreWriter (Write MsgDragon)].

(** What [game_over] draws when the file then holds [best]. *)
Definition game_over_events (best : Z) : list Event :=
  [EvTurtle ScoreWriter (Goto (0, 0)); EvBgColor "crimson";
   EvTurtle ScoreWriter (Color "peach puff"); EvFileRead;
   EvTurtle ScoreWriter (Write (MsgGameOver best))]
  ++ corner_events ++ [EvWindowUpdate].

Definition hide_events : list Event :=
  [EvSleep 300; EvHideSnake; EvTurtle ScoreWriter Clear; EvHideFood].

(** The world a terminal arm of the tick leaves. *)
Definition ended (n : nat) (sc b : Z) (w : World) : World :=
  Nat.iter n click
    (log_all (game_over_events (shown_best sc b))
       (persisted sc b
          (logged EvFileRead (log_all hide_events (with_game_on false w))))).

Definition key_events : list Event :=
  [EvListen; EvOnKey KeyDown; EvOnKey KeyUp; EvOnKey KeyLeft; EvOnKey KeyRight].

Definition start_events (sc b : Z) : list Event :=
  [EvSleep 50; EvTurtle ScoreWriter Clear; EvFileRead;
   EvTurtle ScoreWriter (Write (MsgScoreLine sc b)); EvSnakeMove; EvWindowUpdate].

(** The world when the conditional of the tick is reached. *)
Definition started (n : nat) (sc b : Z) (w : World) : World :=
  Nat.iter n click (log_all (start_events sc b) w).

(** The arm of the conditional that runs for the creature [s]. *)
Definition arm (g : Game) (s : Snake) : Outcome :=
  if border_hit (head s) then Border
  else if closer_than 15 (head s) (food g) then Ate
  else if existsb (closer_than 10 (head s)) (but_last_two (turtles s)) then Bit
  else Moved.

Section TickVocabulary.

Context {ops : SnakeOps}.

Definition game_after (e : TickEnv) (g : Game) (s : Snake) (o : Outcome) : Game :=
  match o with
  | Ate => mkGame (food_roll e) (snake_extend s) (score g + 1)
  | _ => mkGame (food g) s (score g)
  end.

Definition world_after (e : TickEnv) (g : Game) (b : Z) (o : Outcome)
                       (w : World) : World :=
  match o with
  | Border | Bit => ended (over_clicks e) (score g) b w
  | Ate => log_all [EvFoodAt (food_roll e); EvSnakeExtend] w
  | Moved => w
  end.

End TickVocabulary.

(** ** Invariants *)

Definition is_close_button (e : Event) : bool :=
  match e with EvCloseButton => true | _ => false end.

Definition is_destroy (e : Event) : bool :=
  match e with EvDestroy => true | _ => false end.

Definition is_new_game_prompt (e : Event) : bool :=
  match e with EvTextInput AskNewGame => true | _ => false end.

(** Events other than the three the invariants speak about. *)
Definition plain (e : Event) : bool :=
  negb (is_close_button e || is_destroy e || is_new_game_prompt e).

(** Hoare triples for the control monad; [I] must hold when the computation
    raises or blocks. *)
Definition hoare (I P : World -> Prop) {A} (m : M A) (Q : A -> World -> Prop)
  : Prop :=
  forall w, P w ->
    match m w with
    | Ok a w' => Q a w'
    | Raise _ w' => I w'
    | Blocked w' => I w'
    end.

Definition keeps (I : World -> Prop) {A} (m : M A) : Prop :=
  hoare I I m (fun _ => I).

(** On a log (newest first): no replay prompt was logged after a close. *)
Fixpoint prompts_precede_close (l : list Event) : bool :=
  match l with
  | [] => true
  | e :: l' =>
      (negb (is_new_game_prompt e) || negb (existsb is_close_button l'))
      && prompts_precede_close l'
  end.

Definition destroys (l : list Event) : nat :=
  List.length (filter is_destroy l).

Record Inv (w : World) : Prop := mkInv {
  inv_flag : is_on_close w = false -> existsb is_close_button (log w) = false;
  inv_order : prompts_precede_close (log w) = true;
  inv_window : window w = true -> destroys (log w) = 0%nat;
  inv_once : (destroys (log w) <= 1)%nat
}.

(** ** Sample inputs *)

(** The one-character text U+00B2 (superscript two). *)
Definition superscript_two : string := String (ascii_of_nat 178) EmptyString.

(** The events of one round of hint and new prompt. *)
Definition hint_events : list Event :=
  [EvTurtle WriteMessage (Write MsgSpeedHint); EvWindowUpdate].

Definition is_sleep (e : Event) : bool :=
  match e with EvSleep _ => true | _ => false end.

(** A tick with no key pressed and no activation of the close button. *)
Definition still_tick : TickEnv := mkTick [] 0 (300, 300) 0.

(** A session with speed 15 and no key pressed: the creature runs east and
    crosses the right border on the 25th tick; the player then declines a new
    game and activates the close button twice. *)
Definition border_run : ProgramEnv :=
  mkProgram
    (mkSession (mkAsk 0 (Some "15"%string)) [] 0 (300, 300) (repeat still_tick 25))
    [mkRound (mkAsk 0 (Some "n"%string)) 0
             (mkSession (mkAsk 0 None) [] 0 (0, 0) [])]
    2.

(** Ticks in which the creature, running east along y = 0, finds the food
    right ahead: the food is placed anew 20 units further each time. *)
Fixpoint meals (k : nat) (x : Z) : list TickEnv :=
  match k with
  | O => []
  | S k' => mkTick [] 0 (x, 0) 0 :: meals k' (x + 20)
  end.

(** A session of 25 ticks with no key pressed: the creature eats on each of
    the first [eats] ticks and crosses the right border on the last. *)
Definition straight_session (speed : string) (eats : nat) : SessionEnv :=
  mkSession (mkAsk 0 (Some speed)) [] 0 (20, 0)
            (meals (eats - 1) 40 ++ repeat still_tick (26 - eats)).

(** A session that ends with score 7, a new game, a session that ends with
    score 5, no further game. *)
Definition two_sessions : ProgramEnv :=
  mkProgram (straight_session "15" 7)
            [mkRound (mkAsk 0 (Some "Y"%string)) 0 (straight_session "12" 5);
             mkRound (mkAsk 0 (Some "n"%string)) 0 (straight_session "12" 0)]
            0.

(** The best scores shown by the game-over summaries of a trace. *)
Fixpoint summaries (t : list Event) : list Z :=
  match t with
  | [] => []
  | EvTurtle ScoreWriter (Write (MsgGameOver best)) :: t' => best :: summaries t'
  | _ :: t' => summaries t'
  end.

(** The texts written to the score file in a trace. *)
Fixpoint file_writes (t : list Event) : list string :=
  match t with
  | [] => []
  | EvFileWrite text :: t' => text :: file_writes t'
  | _ :: t' => file_writes t'
  end.

(** The score file holds the text 0. *)
Definition fresh_world : World := boot (Some "0"%string).

(** A creature one step from the right border, heading east. *)
Definition at_the_border : Game :=
  mkGame (300, 300)
         (mkSnake [(420, 0); (440, 0); (460, 0); (480, 0)] (480, 0) East (400, 0))
         3.

(** A creature one step west of the food. *)
Definition before_the_food : Game :=
  mkGame (20, 0)
         (mkSnake [(-60, 0); (-40, 0); (-20, 0); (0, 0)] (0, 0) East (-80, 0))
         3.

(** A creature of length 4 heading east; the player presses Left. *)
Definition about_to_reverse : Game :=
  mkGame (300, 300)
         (mkSnake [(-40, 0); (-20, 0); (0, 0); (20, 0)] (20, 0) East (-60, 0))
         3.

Definition left_tick : TickEnv := mkTick [KeyLeft] 0 (300, 300) 0.

(** ** Texts *)

Fixpoint all_space (s : string) : bool :=
  match s with
  | EmptyString => true
  | String c r => Py.is_space c && all_space r
  end.

Fixpoint all_decimal (s : string) : bool :=
  match s with
  | EmptyString => true
  | String c r => Py.is_decimal c && all_decimal r
  end.

(** One of the superscript digits U+00B2, U+00B3, U+00B9. *)
Definition is_superscript (c : ascii) : bool :=
  (Py.code c =? 178)%N || (Py.code c =? 179)%N || (Py.code c =? 185)%N.

Fixpoint has_superscript (s : string) : bool :=
  match s with
  | EmptyString => false
  | String c r => is_superscript c || has_superscript r
  end.

(** ** More events *)

(** What the replay loop shows for an answer it does not understand. *)
Definition invalid_entry_events (s : string) : list Event :=
  [EvWindowClear; EvBgColor "black";
   EvTurtle WriteMessage (Write (MsgInvalidEntry s)); EvWindowUpdate].

(** What [main] logs up to and including the first speed prompt. *)
Definition opening_events : list Event :=
  [EvScreen; EvBgColor "slate blue"; EvTextInput AskSpeed].

(** What [show_start_screen] logs before the window processes its events. *)
Definition welcome_events : list Event :=
  [EvNewFood "lavender"; EvTurtle StartWriter (Goto (0, 330));
   EvTurtle StartWriter (Write MsgWelcome); EvTurtle StartWriter (Color "violet");
   EvTurtle StartWriter (Goto (-470, 330)); EvTurtle StartWriter (Write MsgDragon);
   EvTurtle StartWriter (Goto (-470, -330)); EvTurtle StartWriter (Write MsgDragon);
   EvTurtle StartWriter (Goto (430, 330)); EvTurtle StartWriter (Write MsgDragon);
   EvTurtle StartWriter (Goto (430, -330)); EvTurtle StartWriter (Write MsgDragon);
   EvWindowUpdate].

Definition is_snake_move (e : Event) : bool :=
  match e with EvSnakeMove => true | _ => false end.

(** ** Invariants, again *)

(** [P] is kept by the computation when it returns, and [I] holds when it
    raises or blocks. *)
Definition steady (I P : World -> Prop) {A} (m : M A) : Prop :=
  hoare I P m (fun _ => P).

(** The score file holds an integer that is at least [b0]. *)
Definition best_at_least (b0 : Z) (w : World) : Prop :=
  exists b, stored w b /\ b0 <= b.

Definition is_summary (e : Event) : bool :=
  match e with
  | EvTurtle ScoreWriter (Write (MsgGameOver _)) => true
  | _ => false
  end.

(** Since the trace was [t0]: a close has been recorded, or the game is on,
    or a game-over summary has been drawn. *)
Definition accounted (t0 : list Event) (w : World) : Prop :=
  exists es,
    trace w = t0 ++ es
    /\ (is_on_close w = true \/ game_on w = true
        \/ existsb is_summary es = true).

(** ** More sample inputs *)

(** The text made of one line feed. *)
Definition line_feed : string := String (ascii_of_nat 10) EmptyString.

(** A creature of two segments, heading east. *)
Definition two_segments : Game :=
  mkGame (300, 300) (mkSnake [(-20, 0); (0, 0)] (0, 0) East (-40, 0)) 0.

(** A session under way: [on_close] registered, the window open, the score
    file holding 0. *)
Definition playing_world : World :=
  mkWorld true false true true (Some "0"%string) [].

(** A tick during which the close button is activated once. *)
Definition closing_tick : TickEnv := mkTick [] 1 (300, 300) 0.

(** A round in which the player answers the replay prompt with yes. *)
Definition yes_round : Round :=
  mkRound (mkAsk 0 (Some "yes"%string)) 0 (mkSession (mkAsk 0 None) [] 0 (0, 0) []).

(** ** Runs without exceptions *)

(** From a world that satisfies [P] the computation does not raise; when it
    returns, [Q] holds. *)
Definition sure (P : World -> Prop) {A} (m : M A) (Q : A -> World -> Prop)
  : Prop :=
  forall w, P w ->
    match m w with
    | Ok a w' => Q a w'
    | Raise _ _ => False
    | Blocked _ => True
    end.

(** The result is not an exception. *)
Definition unraised {A} (r : Res A) : Prop :=
  match r with
  | Raise _ _ => False
  | _ => True
  end.

(** The score file holds an integer. *)
Definition readable (w : World) : Prop := exists b, stored w b.

(** The score file is missing or holds an integer. *)
Definition sound_file (w : World) : Prop :=
  forall s, score_file w = Some s -> Py.int s <> None.

(** A text that [isdigit] rejects, or that holds no superscript digit. *)
Definition tame_text (s : string) : bool :=
  negb (Py.isdigit s && has_superscript s).

Definition tame_ask (a : Ask) : bool :=
  match answer a with
  | Some s => tame_text s
  | None => true
  end.

(** No speed prompt of the session is answered with digits that hold a
    superscript. *)
Definition tame_session (e : SessionEnv) : bool :=
  tame_ask (speed_ask e)
  && forallb (fun r => tame_ask (retry_ask r)) (speed_retries e).

Definition tame_program (e : ProgramEnv) : bool :=
  tame_session (first_session e)
  && forallb (fun r => tame_session (session r)) (rounds e).

(** * Properties *)

(** ** Decimal text: printing then parsing *)

Module PyFacts.
Import Py.

Lemma rstrip_no_space s : no_space s = true -> rstrip s = s.
Proof.
  induction s as [|c r IH]; simpl; [reflexivity|].
  intros H. apply andb_prop in H. destruct H as [Hc Hr].
  rewrite (IH Hr). destruct r.
  - apply negb_true_iff in Hc. now rewrite Hc.
  - reflexivity.
Qed.

Lemma lstrip_no_space s : no_space s = true -> lstrip s = s.
Proof.
  destruct s as [|c r]; simpl; [reflexivity|].
  intros H. apply andb_prop in H. destruct H as [Hc _].
  apply negb_true_iff in Hc. now rewrite Hc.
Qed.

Lemma strip_no_space s : no_space s = true -> strip s = s.
Proof.
  intros H. unfold strip. rewrite (lstrip_no_space s H). now apply rstrip_no_space.
Qed.

Lemma uint_value_pos d : forall p,
  uint_value (Z.pos p) d = Z.pos (Pos.of_uint_acc d p).
Proof.
  induction d; intros p; cbn [uint_value Pos.of_uint_acc]; try reflexivity;
    rewrite <- IHd; f_equal; lia.
Qed.

Lemma uint_value_zero d : uint_value 0 d = Z.of_uint d.
Proof.
  unfold Z.of_uint.
  induction d; cbn [uint_value Pos.of_uint Z.of_N]; try reflexivity;
    try assumption;
    match goal with
    | |- uint_value ?a _ = _ =>
        change a with (Z.pos (Z.to_pos a)); apply uint_value_pos
    end.
Qed.

Lemma digits_from_uint d : forall acc,
  digits_from acc (DecimalString.NilEmpty.string_of_uint d)
  = Some (uint_value acc d).
Proof.
  induction d; intros acc; simpl; try reflexivity;
    rewrite IHd; do 2 f_equal; cbn; lia.
Qed.

Lemma digits_uint d :
  nonempty d = true ->
  digits (DecimalString.NilEmpty.string_of_uint d) = Some (Z.of_uint d).
Proof.
  rewrite <- uint_value_zero.
  destruct d; intros H; try discriminate H; simpl;
    rewrite digits_from_uint; reflexivity.
Qed.

Lemma no_space_uint d :
  no_space (DecimalString.NilEmpty.string_of_uint d) = true.
Proof. induction d; simpl; auto. Qed.

Lemma nonempty_to_uint p : nonempty (Pos.to_uint p) = true.
Proof.
  pose proof (DecimalPos.Unsigned.to_uint_nonnil p) as H.
  destruct (Pos.to_uint p); [contradiction|reflexivity ..].
Qed.

Lemma int_of_pos_uint d :
  nonempty d = true ->
  int (DecimalString.NilEmpty.string_of_uint d) = Some (Z.of_uint d).
Proof.
  intros H. unfold int.
  rewrite (strip_no_space _ (no_space_uint d)).
  rewrite <- (digits_uint d H).
  destruct d; try discriminate H; reflexivity.
Qed.

Lemma int_of_neg_uint d :
  nonempty d = true ->
  int (String "-" (DecimalString.NilEmpty.string_of_uint d))
  = Some (- Z.of_uint d).
Proof.
  intros H. unfold int.
  rewrite strip_no_space by (simpl; apply no_space_uint).
  simpl. rewrite (digits_uint d H). reflexivity.
Qed.

(** Reading back what [str] printed gives the number. *)
Lemma int_str (n : Z) : int (str n) = Some n.
Proof.
  unfold str.
  rewrite <- (DecimalZ.of_to n) at 2.
  destruct n as [|p|p]; cbn [Z.to_int DecimalString.NilEmpty.string_of_int Z.of_int].
  - reflexivity.
  - apply int_of_pos_uint, nonempty_to_uint.
  - apply int_of_neg_uint, nonempty_to_uint.
Qed.

End PyFacts.

(** ** The world under the close button *)

Lemma on_close_spec w : on_close w = Ok tt (closed w).
Proof.
  unfold on_close, closed, close_events, bind, emit, modify, gets.
  cbn. destruct (game_on w), (is_on_close w); reflexivity.
Qed.

Lemma click_spec w :
  click w = if handler w && window w then closed w else w.
Proof. unfold click. now rewrite on_close_spec. Qed.

Lemma trace_log_all es w : trace (log_all es w) = trace w ++ es.
Proof.
  unfold trace, log_all. cbn.
  now rewrite rev_app_distr, rev_involutive.
Qed.

Lemma trace_closed w : trace (closed w) = trace w ++ close_events w.
Proof.
  unfold trace, closed. cbn [log].
  now rewrite rev_app_distr, rev_involutive.
Qed.

Lemma file_click w : score_file (click w) = score_file w.
Proof. rewrite click_spec. now destruct (handler w && window w). Qed.

Lemma file_pumped n w : score_file (Nat.iter n click w) = score_file w.
Proof. induction n; simpl; [reflexivity|]. now rewrite file_click. Qed.

Lemma game_off_click w : game_on w = false -> game_on (click w) = false.
Proof. rewrite click_spec. now destruct (handler w && window w). Qed.

Lemma game_off_pumped n w :
  game_on w = false -> game_on (Nat.iter n click w) = false.
Proof. induction n; simpl; auto using game_off_click. Qed.

Lemma close_flag_click w : is_on_close w = true -> is_on_close (click w) = true.
Proof. rewrite click_spec. now destruct (handler w && window w). Qed.

(** The close button leaves both flags alone or stops the game and records
    the close. *)
Lemma flags_pumped n w :
  (game_on (Nat.iter n click w) = game_on w
   /\ is_on_close (Nat.iter n click w) = is_on_close w)
  \/ (game_on (Nat.iter n click w) = false
      /\ is_on_close (Nat.iter n click w) = true).
Proof.
  induction n; simpl; [now left|].
  rewrite click_spec.
  destruct (handler _ && window _); [right; split; reflexivity | exact IHn].
Qed.

Lemma closing_close_events w : forallb closing (close_events w) = true.
Proof.
  unfold close_events. now destruct (negb (game_on w) && is_on_close w).
Qed.

Lemma trace_click w :
  exists es, trace (click w) = trace w ++ es /\ forallb closing es = true.
Proof.
  rewrite click_spec. destruct (handler w && window w).
  - exists (close_events w). split; [apply trace_closed|apply closing_close_events].
  - exists []. split; [now rewrite app_nil_r|reflexivity].
Qed.

Lemma trace_pumped n w :
  exists es, trace (Nat.iter n click w) = trace w ++ es
             /\ forallb closing es = true.
Proof.
  induction n; simpl.
  - exists []. split; [now rewrite app_nil_r|reflexivity].
  - destruct IHn as (es & E & F).
    destruct (trace_click (Nat.iter n click w)) as (es' & E' & F').
    exists (es ++ es'). split.
    + now rewrite E', E, app_assoc.
    + now rewrite forallb_app, F, F'.
Qed.

(** ** The score file and the end of a session *)

Lemma bind_ok {A B} (m : M A) (k : A -> M B) w a w' :
  m w = Ok a w' -> bind m k w = k a w'.
Proof. intros H. unfold bind. now rewrite H. Qed.

(** Runs the leading statements that only log or update the world. *)
Ltac run := repeat (erewrite bind_ok by reflexivity); cbv beta.

Lemma stored_read w b :
  stored w b -> read_file_score w = Ok b (logged EvFileRead w).
Proof.
  intros (s & Hs & Hb). unfold read_file_score, bind, gets, emit, modify.
  cbn. now rewrite Hs, Hb.
Qed.

Lemma stored_persisted sc b w :
  stored w b -> stored (persisted sc b w) (shown_best sc b).
Proof.
  intros (s & Hs & Hb). unfold persisted, shown_best.
  destruct (sc >? b).
  - exists (Py.str sc). split; [reflexivity|apply PyFacts.int_str].
  - now exists s.
Qed.

Lemma stored_same_file w w' b :
  score_file w' = score_file w -> stored w b -> stored w' b.
Proof. intros E (s & Hs & Hb). exists s. now rewrite E. Qed.

Lemma game_over_spec n sc w b :
  stored w b ->
  game_over n sc w
  = Ok tt (Nat.iter n click
             (log_all (game_over_events (shown_best sc b))
                (persisted sc b (logged EvFileRead w)))).
Proof.
  intros H. unfold game_over.
  rewrite (bind_ok _ _ _ _ _ (stored_read w b H)).
  assert (H' : stored (logged EvFileRead w) b)
    by now apply (stored_same_file w).
  apply (stored_persisted sc) in H'.
  unfold persisted, shown_best in *.
  destruct (sc >? b); run;
    (erewrite bind_ok
       by (apply stored_read; eapply stored_same_file; [|exact H']; reflexivity));
    reflexivity.
Qed.

Lemma score_update_spec sc w b :
  stored w b ->
  score_update sc w
  = Ok tt (log_all [EvTurtle ScoreWriter Clear; EvFileRead;
                    EvTurtle ScoreWriter (Write (MsgScoreLine sc b))] w).
Proof.
  intros H. unfold score_update. run.
  erewrite bind_ok
    by (apply stored_read; eapply stored_same_file; [|exact H]; reflexivity).
  reflexivity.
Qed.

Lemma end_session_spec n sc w b :
  stored w b -> end_session n sc w = Ok tt (ended n sc b w).
Proof.
  intros H. unfold end_session. run.
  rewrite (game_over_spec n sc _ b); [reflexivity|].
  now apply (stored_same_file w).
Qed.

Lemma bite_scan_spec n sc h segments w b :
  stored w b ->
  bite_scan n sc h segments w
  = if existsb (closer_than 10 h) segments
    then Ok true (ended n sc b w) else Ok false w.
Proof.
  intros H. induction segments as [|seg rest IH]; simpl; [reflexivity|].
  destruct (closer_than 10 h seg); simpl; [|exact IH].
  unfold bind. now rewrite (end_session_spec n sc w b H).
Qed.

Lemma game_off_ended n sc b w : game_on (ended n sc b w) = false.
Proof.
  unfold ended. apply game_off_pumped.
  unfold persisted. now destruct (sc >? b).
Qed.

Lemma file_ended n sc b w :
  score_file (ended n sc b w)
  = if sc >? b then Some (Py.str sc) else score_file w.
Proof.
  unfold ended. rewrite file_pumped. unfold persisted. now destruct (sc >? b).
Qed.

Lemma trace_persisted sc b w :
  trace (persisted sc b w) = trace w ++ save_events sc b.
Proof.
  unfold persisted, save_events. destruct (sc >? b).
  - reflexivity.
  - now rewrite app_nil_r.
Qed.

Lemma trace_ended n sc b w :
  exists es,
    trace (ended n sc b w)
    = trace w ++ hide_events ++ [EvFileRead] ++ save_events sc b
      ++ game_over_events (shown_best sc b) ++ es
    /\ forallb closing es = true.
Proof.
  unfold ended.
  destruct (trace_pumped n
    (log_all (game_over_events (shown_best sc b))
       (persisted sc b
          (logged EvFileRead (log_all hide_events (with_game_on false w))))))
    as (es & E & F).
  exists es. split; [|exact F].
  rewrite E, trace_log_all, trace_persisted.
  change (logged EvFileRead ?W) with (log_all [EvFileRead] W).
  rewrite !trace_log_all.
  now rewrite <- !app_assoc.
Qed.

(** ** One tick *)

Section TickFacts.

Context {ops : SnakeOps}.

Lemma checks_spec e g s w b :
  stored w b ->
  checks e g s w
  = Ok (arm g s, game_after e g s (arm g s)) (world_after e g b (arm g s) w).
Proof.
  intros H. unfold checks, arm.
  destruct (border_hit (head s)).
  - unfold bind. now rewrite (end_session_spec _ _ w b H).
  - destruct (closer_than 15 (head s) (food g)); [reflexivity|].
    unfold bind. rewrite (bite_scan_spec _ _ _ _ w b H).
    now destruct (existsb _ _).
Qed.

Lemma stored_started n sc b w : stored w b -> stored (started n sc b w) b.
Proof.
  apply stored_same_file. unfold started. now rewrite file_pumped.
Qed.

Lemma tick_spec e g w b :
  stored w b ->
  let s := move (keys e) (snake g) in
  tick e g w
  = Ok (arm g s, game_after e g s (arm g s))
       (log_all key_events
          (world_after e g b (arm g s) (started (move_clicks e) (score g) b w))).
Proof.
  intros H s. unfold tick. run.
  erewrite bind_ok
    by (apply (score_update_spec _ _ b); eapply stored_same_file;
        [|exact H]; reflexivity).
  run. fold s.
  erewrite bind_ok
    by (apply (checks_spec e g s (started (move_clicks e) (score g) b w) b);
        now apply stored_started).
  reflexivity.
Qed.

End TickFacts.

(** ** Boundary, consumption and self-collision *)

Lemma border_hit_iff p :
  border_hit p = true
  <-> xcor p > 485 \/ xcor p < -485 \/ ycor p > 385 \/ ycor p < -385.
Proof.
  unfold border_hit.
  rewrite !orb_true_iff, !Z.gtb_ltb, !Z.ltb_lt. lia.
Qed.

Lemma closer_than_iff r a b : closer_than r a b = true <-> dist2 a b < r * r.
Proof. unfold closer_than. apply Z.ltb_lt. Qed.

Lemma In_but_last_two {A} (l : list A) (x : A) :
  In x (but_last_two l)
  <-> exists i, nth_error l i = Some x /\ (i + 2 < List.length l)%nat.
Proof.
  unfold but_last_two. split.
  - intros H. apply In_nth_error in H. destruct H as (i & Hi).
    assert (Hlt : (i < List.length (firstn (List.length l - 2) l))%nat).
    { apply nth_error_Some. now rewrite Hi. }
    rewrite length_firstn in Hlt.
    exists i. split; [|lia].
    rewrite nth_error_firstn in Hi.
    destruct (Nat.ltb_spec i (List.length l - 2)); [exact Hi|discriminate].
  - intros (i & Hi & Hlt). apply (nth_error_In _ i).
    rewrite nth_error_firstn.
    destruct (Nat.ltb_spec i (List.length l - 2)); [exact Hi|lia].
Qed.

Lemma but_last_two_app {A} (body : list A) (x y : A) :
  but_last_two (body ++ [x; y]) = body.
Proof.
  unfold but_last_two. rewrite length_app. simpl.
  replace (List.length body + 2 - 2)%nat with (List.length body + 0)%nat by lia.
  rewrite firstn_app_2. simpl. apply app_nil_r.
Qed.

Section Claims_tick.

Context {ops : SnakeOps}.

Lemma summary_in_ended n sc b w :
  In (EvTurtle ScoreWriter (Write (MsgGameOver (shown_best sc b))))
     (trace (ended n sc b w)).
Proof.
  destruct (trace_ended n sc b w) as (es & E & _).
  rewrite E, !in_app_iff. do 4 right. left.
  unfold game_over_events. simpl. tauto.
Qed.

(** C3: on a tick that gets past the score display, the boundary arm runs
    exactly when the head, after the move, has x > 485, x < -485, y > 385 or
    y < -385; it then clears [game_on] and presents the game-over summary.
    A head at x = 486 ends the session; a head at x = 484 with y within
    [-385, 385] does not take the boundary arm. *)
Theorem C3_boundary_termination (e : TickEnv) (g : Game) (w : World) (b : Z) :
  stored w b ->
  exists o g' w',
    tick e g w = Ok (o, g') w'
    /\ (o = Border
        <-> xcor (head (move (keys e) (snake g))) > 485
            \/ xcor (head (move (keys e) (snake g))) < -485
            \/ ycor (head (move (keys e) (snake g))) > 385
            \/ ycor (head (move (keys e) (snake g))) < -385)
    /\ (o = Border ->
        game_on w' = false
        /\ In (EvTurtle ScoreWriter (Write (MsgGameOver (shown_best (score g) b))))
              (trace w'))
    /\ (xcor (head (move (keys e) (snake g))) = 486 -> o = Border)
    /\ (xcor (head (move (keys e) (snake g))) = 484 ->
        -385 <= ycor (head (move (keys e) (snake g))) <= 385 -> o <> Border).
Proof.
  intros H. rewrite (tick_spec e g w b H). cbv zeta.
  set (s := move (keys e) (snake g)).
  do 3 eexists. split; [reflexivity|].
  assert (Hiff : arm g s = Border <-> border_hit (head s) = true).
  { unfold arm. destruct (border_hit (head s)); [tauto|].
    destruct (closer_than 15 _ _); [split; discriminate|].
    destruct (existsb _ _); split; discriminate. }
  rewrite Hiff, border_hit_iff.
  split; [tauto|]. split.
  - intros Hb. rewrite <- border_hit_iff, <- Hiff in Hb. rewrite Hb.
    cbn [world_after]. split.
    + apply game_off_ended.
    + rewrite trace_log_all. apply in_or_app. left. apply summary_in_ended.
  - split; intros; lia.
Qed.

Lemma arm_bit_iff g s :
  border_hit (head s) = false ->
  closer_than 15 (head s) (food g) = false ->
  arm g s = Bit
  <-> existsb (closer_than 10 (head s)) (but_last_two (turtles s)) = true.
Proof.
  intros Hb Hc. unfold arm. rewrite Hb, Hc.
  destruct (existsb _ _); split; congruence.
Qed.

Lemma arm_bit_or_moved g s :
  border_hit (head s) = false ->
  closer_than 15 (head s) (food g) = false ->
  arm g s <> Bit -> arm g s = Moved.
Proof.
  intros Hb Hc. unfold arm. rewrite Hb, Hc.
  destruct (existsb _ _); congruence.
Qed.

(** C4: on a tick where neither the boundary arm nor the consumption arm
    runs, the session is ended by self-collision exactly when some entry of
    the segment list other than its last two is at distance strictly below 10
    from the head.  When the last two entries are the segment behind the head
    and the head, the entries examined are all the segments but those two.
    For a creature of length 4 so stored, [t0; t1; t2; t3] with head [t3], the
    third segment from the head is [t1]: the head coinciding with it ends the
    session, while the head being near none but the excluded entries [t2] and
    [t3] does not. *)
Theorem C4_self_collision (e : TickEnv) (g : Game) (w : World) (b : Z) :
  stored w b ->
  border_hit (head (move (keys e) (snake g))) = false ->
  closer_than 15 (head (move (keys e) (snake g))) (food g) = false ->
  exists o g' w',
    tick e g w = Ok (o, g') w'
    /\ (o = Bit
        <-> exists i seg,
              nth_error (turtles (move (keys e) (snake g))) i = Some seg
              /\ (i + 2 < List.length (turtles (move (keys e) (snake g))))%nat
              /\ dist2 (head (move (keys e) (snake g))) seg < 10 * 10)
    /\ (o = Bit ->
        game_on w' = false
        /\ In (EvTurtle ScoreWriter (Write (MsgGameOver (shown_best (score g) b))))
              (trace w'))
    /\ (o <> Bit ->
        o = Moved
        /\ w' = log_all key_events (started (move_clicks e) (score g) b w))
    /\ (forall body neck,
          turtles (move (keys e) (snake g))
          = body ++ [neck; head (move (keys e) (snake g))] ->
          (o = Bit
           <-> exists seg,
                 In seg body
                 /\ dist2 (head (move (keys e) (snake g))) seg < 10 * 10))
    /\ (forall t0 t1 t2 t3,
          turtles (move (keys e) (snake g)) = [t0; t1; t2; t3] ->
          head (move (keys e) (snake g)) = t3 ->
          (t1 = t3 -> o = Bit)
          /\ (10 * 10 <= dist2 t3 t0 -> 10 * 10 <= dist2 t3 t1 -> o <> Bit)).
Proof.
  intros H Hb Hc. rewrite (tick_spec e g w b H). cbv zeta.
  set (s := move (keys e) (snake g)) in *.
  do 3 eexists. split; [reflexivity|].
  pose proof (arm_bit_iff g s Hb Hc) as Hbit.
  assert (Hex : forall l,
    existsb (closer_than 10 (head s)) l = true
    <-> exists seg, In seg l /\ dist2 (head s) seg < 10 * 10).
  { intros l. rewrite existsb_exists.
    split; intros (seg & Hin & Hd); exists seg; split; auto;
      now apply closer_than_iff. }
  assert (Hbody : forall body neck, turtles s = body ++ [neck; head s] ->
    (arm g s = Bit
     <-> exists seg, In seg body /\ dist2 (head s) seg < 10 * 10)).
  { intros body neck Et. rewrite Hbit, Et, but_last_two_app. apply Hex. }
  split; [|split; [|split; [|split]]].
  - rewrite Hbit, Hex. split.
    + intros (seg & Hin & Hd). apply In_but_last_two in Hin.
      destruct Hin as (i & Hi & Hlt). now exists i, seg.
    + intros (i & seg & Hi & Hlt & Hd). exists seg. split; [|exact Hd].
      apply In_but_last_two. now exists i.
  - intros Ho. rewrite Ho. cbn [world_after]. split.
    + apply game_off_ended.
    + rewrite trace_log_all. apply in_or_app. left. apply summary_in_ended.
  - intros Ho. rewrite (arm_bit_or_moved g s Hb Hc Ho). now split.
  - exact Hbody.
  - intros t0 t1 t2 t3 Et Eh.
    assert (Et' : turtles s = [t0; t1] ++ [t2; head s]) by now rewrite Eh.
    rewrite (Hbody _ _ Et'), Eh. split.
    + intros ->. exists t3. split; [simpl; tauto|].
      unfold dist2. lia.
    + intros H0 H1 (seg & [<-|[<-|[]]] & Hd); lia.
Qed.

End Claims_tick.

(** ** The score file across a session *)

Lemma bind_raise {A B} (m : M A) (k : A -> M B) w x w' :
  m w = Raise x w' -> bind m k w = Raise x w'.
Proof. intros H. unfold bind. now rewrite H. Qed.

Lemma read_value_error w s :
  score_file w = Some s -> Py.int s = None ->
  read_file_score w = Raise ValueError (logged EvFileRead w).
Proof.
  intros Hs Hi. unfold read_file_score. run. cbn. now rewrite Hs, Hi.
Qed.

Lemma read_missing w :
  score_file w = None ->
  read_file_score w = Raise FileNotFoundError (logged EvFileRead w).
Proof. intros Hs. unfold read_file_score. run. cbn. now rewrite Hs. Qed.

Lemma stored_dec w :
  (exists b, stored w b)
  \/ (exists x, read_file_score w = Raise x (logged EvFileRead w)).
Proof.
  destruct (score_file w) as [s|] eqn:Hs.
  - destruct (Py.int s) as [b|] eqn:Hi.
    + left. exists b, s. now split.
    + right. exists ValueError. now apply (read_value_error w s).
  - right. exists FileNotFoundError. now apply read_missing.
Qed.

Section SessionFacts.

Context {ops : SnakeOps}.

Lemma tick_raise e g w x :
  read_file_score (log_all [EvSleep 50; EvTurtle ScoreWriter Clear] w)
  = Raise x (log_all [EvSleep 50; EvTurtle ScoreWriter Clear; EvFileRead] w) ->
  tick e g w
  = Raise x (log_all [EvSleep 50; EvTurtle ScoreWriter Clear; EvFileRead] w).
Proof.
  intros H. unfold tick. run.
  apply bind_raise. unfold score_update. run.
  apply bind_raise. exact H.
Qed.

Lemma tick_ok_stored e g w r w' :
  tick e g w = Ok r w' -> exists b, stored w b.
Proof.
  intros H.
  destruct (stored_dec (log_all [EvSleep 50; EvTurtle ScoreWriter Clear] w))
    as [(b & Hb)|(x & Hx)].
  - exists b. revert Hb. now apply stored_same_file.
  - rewrite (tick_raise e g w x Hx) in H. discriminate H.
Qed.

Lemma play_off es g w : game_on w = false -> play es g w = Ok g w.
Proof.
  intros H. destruct es; simpl; unfold bind, gets; now rewrite H.
Qed.

Lemma play_step e es g w :
  game_on w = true ->
  play (e :: es) g w = bind (tick e g) (fun r => play es (snd r)) w.
Proof.
  intros H. simpl. unfold bind at 1. unfold gets. now rewrite H.
Qed.

Lemma play_cases es g w g' w' :
  play es g w = Ok g' w' ->
  (game_on w = false /\ g' = g /\ w' = w)
  \/ (exists e es' b,
        es = e :: es' /\ game_on w = true /\ stored w b
        /\ play es' (game_after e g (move (keys e) (snake g))
                                (arm g (move (keys e) (snake g))))
                    (log_all key_events
                       (world_after e g b (arm g (move (keys e) (snake g)))
                          (started (move_clicks e) (score g) b w)))
           = Ok g' w').
Proof.
  intros H. destruct (game_on w) eqn:Hon.
  - right. destruct es as [|e es'].
    + simpl in H. unfold bind, gets in H. rewrite Hon in H. discriminate H.
    + rewrite (play_step e es' g w Hon) in H.
      destruct (tick e g w) as [r w1|x w1|w1] eqn:Ht;
        unfold bind in H; rewrite Ht in H; try discriminate H.
      destruct (tick_ok_stored e g w r w1 Ht) as (b & Hb).
      exists e, es', b. repeat split; auto.
      rewrite (tick_spec e g w b Hb) in Ht. cbv zeta in Ht.
      injection Ht as <- <-. exact H.
  - left. rewrite (play_off es g w Hon) in H. injection H as <- <-. auto.
Qed.

Lemma file_world_after e g b o w :
  score_file (world_after e g b o w)
  = if match o with Border | Bit => true | _ => false end && (score g >? b)
    then Some (Py.str (score g)) else score_file w.
Proof.
  destruct o; cbn [world_after andb]; try reflexivity; apply file_ended.
Qed.

Lemma file_started n sc b w : score_file (started n sc b w) = score_file w.
Proof. unfold started. now rewrite file_pumped. Qed.

(** Over a whole session the score never decreases. *)
Lemma play_score_monotone es : forall g w g' w',
  play es g w = Ok g' w' -> score g <= score g'.
Proof.
  induction es as [|e es IH]; intros g w g' w' H;
    apply play_cases in H;
    destruct H as [(_ & -> & _)|(e' & es' & b & E & _ & _ & H)];
    try lia; try discriminate E.
  injection E as <- <-. apply IH in H.
  destruct (arm g (move (keys e) (snake g))); cbn in H; lia.
Qed.

(** Over a whole session the score file keeps its content, or receives the
    final score, which then exceeds the value it held. *)
Lemma play_file es : forall g w b g' w',
  stored w b ->
  play es g w = Ok g' w' ->
  score_file w' = score_file w
  \/ (b < score g' /\ score_file w' = Some (Py.str (score g'))).
Proof.
  induction es as [|e es IH]; intros g w b g' w' Hb H;
    apply play_cases in H;
    destruct H as [(_ & -> & ->)|(e' & es' & b' & E & _ & Hb' & H)];
    try (now left); try discriminate E.
  injection E as <- <-.
  assert (b' = b) as ->.
  { destruct Hb as (s & Hs & Hi), Hb' as (s' & Hs' & Hi'). congruence. }
  set (s := move (keys e) (snake g)) in *.
  destruct (arm g s) eqn:Ha.
  1, 3: rewrite play_off in H by apply game_off_ended;
        injection H as <- <-; cbn [game_after score];
        change (score_file (log_all key_events ?W)) with (score_file W);
        cbn [world_after]; rewrite file_ended, file_started;
        destruct (Z.gtb_spec (score g) b); [right; split; [lia|reflexivity]|now left].
  1, 2: eapply IH in H;
        [|eapply stored_same_file; [|exact Hb];
          change (score_file (log_all key_events ?W)) with (score_file W);
          cbn [world_after];
          try change (score_file (log_all ?l ?W)) with (score_file W);
          apply file_started];
        change (score_file (log_all key_events ?W)) with (score_file W) in H;
        cbn [world_after] in H;
        try change (score_file (log_all ?l ?W)) with (score_file W) in H;
        rewrite file_started in H; exact H.
Qed.

End SessionFacts.

(** ** Claims about the score counter *)

Section Claims_eat.

Context {ops : SnakeOps}.

Lemma arm_ate_iff g s :
  arm g s = Ate
  <-> border_hit (head s) = false /\ closer_than 15 (head s) (food g) = true.
Proof.
  unfold arm. destruct (border_hit (head s)).
  - split; [discriminate|intros [? _]; discriminate].
  - destruct (closer_than 15 _ _); [tauto|].
    destruct (existsb _ _); (split; [discriminate|intros [_ ?]; discriminate]).
Qed.

(** C2: over a whole session the score never decreases.  On a tick that
    gets past the score display the score stays or grows by exactly one, and
    it grows exactly when the consumption arm runs.  When, after the move, the
    head is inside the boundary and closer than 15 to the food, the food is
    placed anew, the creature is extended, the score grows by one, and nothing
    else happens before the keys are bound again: the segments are not
    examined and the session is not ended by this tick's conditional. *)
Theorem C2_score_monotone :
  (forall es g w g' w', play es g w = Ok g' w' -> score g <= score g')
  /\ (forall e g w b,
         stored w b ->
         exists o g' w',
           tick e g w = Ok (o, g') w'
           /\ score g <= score g' <= score g + 1
           /\ (score g' = score g + 1 <-> o = Ate)
           /\ (-485 <= xcor (head (move (keys e) (snake g))) <= 485 ->
               -385 <= ycor (head (move (keys e) (snake g))) <= 385 ->
               dist2 (head (move (keys e) (snake g))) (food g) < 15 * 15 ->
               o = Ate
               /\ g' = mkGame (food_roll e)
                              (snake_extend (move (keys e) (snake g)))
                              (score g + 1)
               /\ w' = log_all ([EvFoodAt (food_roll e); EvSnakeExtend]
                                ++ key_events)
                               (started (move_clicks e) (score g) b w))).
Proof.
  split; [intros es g w g' w'; apply play_score_monotone|].
  intros e g w b H. rewrite (tick_spec e g w b H). cbv zeta.
  set (s := move (keys e) (snake g)).
  do 3 eexists. split; [reflexivity|].
  split; [destruct (arm g s); cbn; lia|].
  split; [destruct (arm g s); cbn; split; intros; try lia; try discriminate;
          reflexivity|].
  intros Hx Hy Hd.
  assert (Ha : arm g s = Ate).
  { apply arm_ate_iff. split.
    - destruct (border_hit (head s)) eqn:E; [|reflexivity].
      apply border_hit_iff in E. lia.
    - now apply closer_than_iff. }
  rewrite Ha. repeat split.
Qed.

End Claims_eat.

(** ** Claims about the persisted best score *)

Section Claims_score.

Context {ops : SnakeOps}.

(** C1: the score file is overwritten with the current score only when that
    score is strictly greater than the stored value, and only by a tick that
    ends the session (boundary or self-collision arm); over a whole session
    the file keeps its content or receives the final score, which then
    exceeds the old value.  From a stored 0, a session that ends with score 7
    leaves 7 in the file, and a later session that ends with score 5 leaves
    7. *)
Theorem C1_best_score_only_at_session_end :
  (forall e g w b,
      stored w b ->
      exists o g' w',
        tick e g w = Ok (o, g') w'
        /\ score_file w'
           = if match o with Border | Bit => true | _ => false end
                && (score g >? b)
             then Some (Py.str (score g)) else score_file w)
  /\ (forall es g w b g' w',
         stored w b ->
         play es g w = Ok g' w' ->
         score_file w' = score_file w
         \/ (b < score g' /\ score_file w' = Some (Py.str (score g'))))
  /\ (forall n1 n2 w,
         score_file w = Some "0"%string ->
         exists w1 w2,
           end_session n1 7 w = Ok tt w1
           /\ score_file w1 = Some "7"%string
           /\ end_session n2 5 w1 = Ok tt w2
           /\ score_file w2 = Some "7"%string).
Proof.
  split; [|split].
  - intros e g w b H. rewrite (tick_spec e g w b H). cbv zeta.
    do 3 eexists. split; [reflexivity|].
    change (score_file (log_all key_events ?W)) with (score_file W).
    now rewrite file_world_after, file_started.
  - intros es g w b g' w'. apply play_file.
  - intros n1 n2 w Hw.
    assert (H0 : stored w 0) by (exists "0"%string; now split).
    exists (ended n1 7 0 w), (ended n2 5 7 (ended n1 7 0 w)).
    assert (H1 : score_file (ended n1 7 0 w) = Some "7"%string)
      by now rewrite file_ended.
    assert (H7 : stored (ended n1 7 0 w) 7) by (exists "7"%string; now split).
    repeat split.
    + now apply end_session_spec.
    + exact H1.
    + now apply end_session_spec.
    + now rewrite file_ended.
Qed.

(** C7: when the score file is missing, constructing a Score creates it with
    the text 0, and the first read returns 0; an existing file is left as it
    is; when the file holds text that is not an integer, read_file_score
    raises ValueError, and so does the tick that displays the score. *)
Theorem C7_missing_or_corrupt_file :
  (forall w,
      score_file w = None ->
      exists w',
        Score_init w = Ok 0 w'
        /\ score_file w' = Some "0"%string
        /\ read_file_score w' = Ok 0 (logged EvFileRead w'))
  /\ (forall w s,
         score_file w = Some s ->
         exists w', Score_init w = Ok 0 w' /\ score_file w' = Some s)
  /\ (forall w s,
         score_file w = Some s -> Py.int s = None ->
         read_file_score w = Raise ValueError (logged EvFileRead w))
  /\ (forall e g w s,
         score_file w = Some s -> Py.int s = None ->
         exists w', tick e g w = Raise ValueError w')
  /\ Py.int "abc"%string = None
  /\ Py.int EmptyString = None
  /\ Py.int "7.5"%string = None.
Proof.
  split; [|split; [|split; [|split]]].
  - intros w Hw. eexists. split; [|split].
    + unfold Score_init. run. cbn [score_file logged]. rewrite Hw.
      unfold write_file. run. reflexivity.
    + reflexivity.
    + apply stored_read. exists "0"%string. now split.
  - intros w s Hw. eexists. split.
    + unfold Score_init. run. cbn [score_file logged]. rewrite Hw.
      run. reflexivity.
    + exact Hw.
  - apply read_value_error.
  - intros e g w s Hs Hi. eexists. apply tick_raise.
    exact (read_value_error
             (log_all [EvSleep 50; EvTurtle ScoreWriter Clear] w) s Hs Hi).
  - repeat split.
Qed.

(** C8: game_over first reads the file and, when the score beats the stored
    value, writes the score; only then does it draw, and the summary shows the
    value read from the file after that write.  A session that sets a record
    shows the new best in its own summary. *)
Theorem C8_summary_after_persist (n : nat) (sc : Z) (w : World) (b : Z) :
  stored w b ->
  exists w' es,
    game_over n sc w = Ok tt w'
    /\ trace w'
       = trace w ++ [EvFileRead] ++ save_events sc b
         ++ [EvTurtle ScoreWriter (Goto (0, 0)); EvBgColor "crimson";
             EvTurtle ScoreWriter (Color "peach puff"); EvFileRead;
             EvTurtle ScoreWriter (Write (MsgGameOver (shown_best sc b)))]
         ++ corner_events ++ [EvWindowUpdate] ++ es
    /\ forallb closing es = true
    /\ stored w' (shown_best sc b)
    /\ (b < sc ->
        save_events sc b = [EvFileWrite (Py.str sc)] /\ shown_best sc b = sc)
    /\ (sc <= b -> save_events sc b = [] /\ shown_best sc b = b).
Proof.
  intros H. rewrite (game_over_spec n sc w b H).
  destruct (trace_pumped n
    (log_all (game_over_events (shown_best sc b))
       (persisted sc b (logged EvFileRead w)))) as (es & E & F).
  do 2 eexists. split; [reflexivity|]. split; [|split; [exact F|split; [|split]]].
  - rewrite E, trace_log_all, trace_persisted.
    change (logged EvFileRead w) with (log_all [EvFileRead] w).
    rewrite trace_log_all. unfold game_over_events.
    now rewrite <- !app_assoc.
  - eapply stored_same_file; [apply file_pumped|].
    eapply stored_same_file; [reflexivity|].
    apply stored_persisted. now apply (stored_same_file w).
  - intros Hlt. unfold save_events, shown_best.
    destruct (Z.gtb_spec sc b); [now split|lia].
  - intros Hle. unfold save_events, shown_best.
    destruct (Z.gtb_spec sc b); [lia|now split].
Qed.

(** C10: save_score writes the decimal text of the score whatever the file
    held, even a greater value; it is the guard in game_over that keeps the
    stored best from decreasing: with a score not above the stored value,
    game_over writes nothing. *)
Theorem C10_save_score_unconditional :
  (forall sc w,
      save_score sc w
      = Ok tt (with_score_file (Some (Py.str sc)) (logged (EvFileWrite (Py.str sc)) w))
      /\ stored (with_score_file (Some (Py.str sc))
                                 (logged (EvFileWrite (Py.str sc)) w)) sc)
  /\ (forall w,
         score_file w = Some "7"%string ->
         exists w', save_score 5 w = Ok tt w' /\ score_file w' = Some "5"%string)
  /\ (forall n sc w b,
         stored w b -> sc <= b ->
         exists w',
           game_over n sc w = Ok tt w' /\ score_file w' = score_file w).
Proof.
  split; [|split].
  - intros sc w. split.
    + unfold save_score, write_file. run. reflexivity.
    + exists (Py.str sc). split; [reflexivity|apply PyFacts.int_str].
  - intros w _. eexists. split.
    + unfold save_score, write_file. run. reflexivity.
    + reflexivity.
  - intros n sc w b H Hle. rewrite (game_over_spec n sc w b H).
    eexists. split; [reflexivity|].
    rewrite file_pumped. unfold persisted.
    destruct (Z.gtb_spec sc b); [lia|reflexivity].
Qed.

End Claims_score.

(** ** Invariants of the whole program *)

Lemma hoare_bind I P {A B} (m : M A) (k : A -> M B) Q R :
  hoare I P m Q -> (forall a, hoare I (Q a) (k a) R) -> hoare I P (bind m k) R.
Proof.
  intros Hm Hk w Hw. unfold bind. specialize (Hm w Hw).
  destruct (m w) as [a w'|x w'|w']; auto. now apply Hk.
Qed.

Lemma hoare_weaken I (P P' : World -> Prop) {A} (m : M A) (Q Q' : A -> World -> Prop) :
  hoare I P' m Q' -> (forall w, P w -> P' w) ->
  (forall a w, Q' a w -> Q a w) -> hoare I P m Q.
Proof.
  intros H HP HQ w Hw. specialize (H w (HP w Hw)).
  destruct (m w); auto.
Qed.

Lemma keeps_world_of I {A} (m : M A) w : keeps I m -> I w -> I (world_of (m w)).
Proof. intros H Hw. specialize (H w Hw). now destruct (m w). Qed.

Create HintDb keeps.

Section Invariant.

Variable I : World -> Prop.
Hypothesis I_logged : forall e w, plain e = true -> I w -> I (logged e w).
Hypothesis I_game_on : forall b w, I w -> I (with_game_on b w).
Hypothesis I_handler : forall w, I w -> I (with_handler true w).
Hypothesis I_file : forall s w, I w -> I (with_score_file (Some s) w).
Hypothesis I_click : forall w, I w -> I (click w).
Hypothesis I_prompt : forall w,
  I w -> is_on_close w = false -> I (logged (EvTextInput AskNewGame) w).

Lemma keeps_bind {A B} (m : M A) (k : A -> M B) :
  keeps I m -> (forall a, keeps I (k a)) -> keeps I (bind m k).
Proof. intros Hm Hk. now apply (hoare_bind I I m k (fun _ => I)). Qed.

Lemma keeps_ret {A} (a : A) : keeps I (ret a).
Proof. intros w Hw. exact Hw. Qed.

Lemma keeps_gets {A} (f : World -> A) : keeps I (gets f).
Proof. intros w Hw. exact Hw. Qed.

Lemma keeps_raise {A} (x : Exn) : keeps I (@raise A x).
Proof. intros w Hw. exact Hw. Qed.

Lemma keeps_blocked {A} : keeps I (@blocked A).
Proof. intros w Hw. exact Hw. Qed.

Lemma keeps_emit e : plain e = true -> keeps I (emit e).
Proof. intros He w Hw. now apply I_logged. Qed.

Lemma keeps_turtle t op : keeps I (turtle t op).
Proof. now apply keeps_emit. Qed.

Lemma keeps_sleep ms : keeps I (sleep ms).
Proof. now apply keeps_emit. Qed.

Lemma keeps_game_on b : keeps I (modify (with_game_on b)).
Proof. intros w Hw. now apply I_game_on. Qed.

Lemma keeps_handler : keeps I (modify (with_handler true)).
Proof. intros w Hw. now apply I_handler. Qed.

Lemma keeps_pump n : keeps I (pump n).
Proof.
  intros w Hw. cbn. induction n; simpl; [exact Hw|now apply I_click].
Qed.

#[local] Hint Resolve keeps_ret keeps_gets keeps_raise keeps_blocked keeps_turtle
  keeps_sleep keeps_game_on keeps_handler keeps_pump : keeps.

(** Splits a computation along its binds and conditionals and closes the
    leaves with the lemmas already known. *)
Ltac keep :=
  repeat first
    [ solve [auto with keeps]
    | apply keeps_emit; reflexivity
    | apply keeps_bind; [|intros ?]
    | match goal with
      | |- keeps _ (if ?b then _ else _) => destruct b
      | |- keeps _ (match ?x with _ => _ end) => destruct x
      end ].

Lemma keeps_write_file s : keeps I (write_file s).
Proof.
  unfold write_file. apply keeps_bind; [now apply keeps_emit|].
  intros _ w Hw. now apply I_file.
Qed.
#[local] Hint Resolve keeps_write_file : keeps.

Lemma keeps_window_update n : keeps I (window_update n).
Proof. unfold window_update. keep. Qed.
#[local] Hint Resolve keeps_window_update : keeps.

Lemma keeps_goodbye : keeps I show_goodbye_message.
Proof. unfold show_goodbye_message. keep. Qed.
#[local] Hint Resolve keeps_goodbye : keeps.

Lemma keeps_read : keeps I read_file_score.
Proof. unfold read_file_score. keep. Qed.
#[local] Hint Resolve keeps_read : keeps.

Lemma keeps_Score_init : keeps I Score_init.
Proof. unfold Score_init. keep. Qed.

Lemma keeps_score_update sc : keeps I (score_update sc).
Proof. unfold score_update. keep. Qed.

Lemma keeps_game_over n sc : keeps I (game_over n sc).
Proof.
  unfold game_over, save_score. keep.
Qed.
#[local] Hint Resolve keeps_Score_init keeps_score_update keeps_game_over : keeps.

Lemma keeps_end_session n sc : keeps I (end_session n sc).
Proof. unfold end_session, hide_score. keep. Qed.
#[local] Hint Resolve keeps_end_session : keeps.

Lemma keeps_bite_scan n sc h segments : keeps I (bite_scan n sc h segments).
Proof. induction segments; simpl; keep. Qed.

Lemma keeps_bind_keys : keeps I bind_keys.
Proof. unfold bind_keys. keep. Qed.

Lemma keeps_start_screen n : keeps I (show_start_screen n).
Proof.
  unfold show_start_screen. keep.
Qed.

Lemma keeps_speed_rejected s : keeps I (speed_rejected s).
Proof. unfold speed_rejected. keep. Qed.
#[local] Hint Resolve keeps_bite_scan keeps_bind_keys keeps_start_screen
  keeps_speed_rejected : keeps.

Lemma keeps_validate_speed rs : forall s, keeps I (validate_speed rs s).
Proof.
  induction rs as [|r rs IH]; intros s; simpl; keep.
Qed.

Lemma keeps_prompt_speed e : keeps I (prompt_speed e).
Proof.
  unfold prompt_speed. keep. apply keeps_validate_speed.
Qed.
#[local] Hint Resolve keeps_prompt_speed : keeps.

Context {ops : SnakeOps}.

Lemma keeps_checks e g s : keeps I (checks e g s).
Proof. unfold checks. keep. Qed.
#[local] Hint Resolve keeps_checks : keeps.

Lemma keeps_tick e g : keeps I (tick e g).
Proof. unfold tick. keep. Qed.
#[local] Hint Resolve keeps_tick : keeps.

Lemma keeps_play es : forall g, keeps I (play es g).
Proof. induction es as [|e es IH]; intros g; simpl; keep. Qed.

Lemma keeps_main e : keeps I (main e).
Proof. unfold main. keep. apply keeps_play. Qed.
#[local] Hint Resolve keeps_main : keeps.

Lemma keeps_replay rs : keeps I (replay rs).
Proof.
  induction rs as [|r rs IH]; simpl.
  - keep.
  - apply (hoare_bind I I _ _ (fun c w => I w /\ c = is_on_close w)).
    + intros w Hw. now split.
    + intros c. destruct c; cbn [negb].
      * eapply hoare_weaken; [apply keeps_ret| |]; cbv beta; tauto.
      * apply (hoare_bind I _ _ _ (fun _ => I)).
        -- unfold textinput.
           apply (hoare_bind I _ _ _ (fun _ => I)).
           ++ intros w [Hw Hc]. cbn. now apply I_prompt.
           ++ intros _. fold (keeps I (pump (clicks (new_game_ask r));;
                                       ret (answer (new_game_ask r)))).
              keep.
        -- intros a. fold (keeps I
             (if (Py.lower (Py.str_opt a) =? "y")%string
              then emit EvWindowClear;; main (session r);; replay rs
              else if (Py.lower (Py.str_opt a) =? "n")%string
                      || match a with None => true | Some _ => false end
                   then show_goodbye_message
                   else emit EvWindowClear;; emit (EvBgColor "black");;
                        turtle WriteMessage (Write (MsgInvalidEntry (Py.str_opt a)));;
                        window_update (invalid_clicks r);; sleep 1300;;
                        turtle WriteMessage Clear;; replay rs)).
           keep; apply IH.
Qed.

Lemma keeps_program e : keeps I (program e).
Proof. unfold program. keep; apply keeps_pump || apply keeps_replay. Qed.

End Invariant.

(** ** The close button, the window and the replay prompt *)

Lemma plain_cases e :
  plain e = true ->
  is_close_button e = false /\ is_destroy e = false
  /\ is_new_game_prompt e = false.
Proof.
  unfold plain. rewrite negb_true_iff, !orb_false_iff. tauto.
Qed.

Lemma Inv_logged e w : plain e = true -> Inv w -> Inv (logged e w).
Proof.
  intros He [Hf Ho Hw Hn]. apply plain_cases in He.
  destruct He as (Hc & Hd & Hp).
  constructor; cbn [log logged is_on_close window existsb prompts_precede_close].
  - intros H. now rewrite Hc, (Hf H).
  - now rewrite Hp, Ho.
  - unfold destroys in *. cbn [filter]. now rewrite Hd.
  - unfold destroys in *. cbn [filter]. now rewrite Hd.
Qed.

Lemma Inv_prompt w :
  Inv w -> is_on_close w = false -> Inv (logged (EvTextInput AskNewGame) w).
Proof.
  intros [Hf Ho Hw Hn] Hc.
  constructor; cbn [log logged is_on_close window existsb prompts_precede_close
                    is_close_button is_new_game_prompt negb orb andb].
  - auto.
  - now rewrite (Hf Hc), Ho.
  - exact Hw.
  - exact Hn.
Qed.

Lemma Inv_closed w : window w = true -> Inv w -> Inv (closed w).
Proof.
  intros Hwin [Hf Ho Hw Hn]. specialize (Hw Hwin).
  unfold closed, close_events.
  destruct (negb (game_on w) && is_on_close w);
    constructor;
    cbn [log is_on_close window List.rev app goodbye_events existsb
         prompts_precede_close is_new_game_prompt negb orb andb];
    try discriminate; try exact Ho;
    unfold destroys in *; cbn [filter is_destroy List.length];
    try rewrite Hw; auto.
Qed.

Lemma Inv_click w : Inv w -> Inv (click w).
Proof.
  intros H. rewrite click_spec.
  destruct (handler w) eqn:Hh, (window w) eqn:Hw; cbn [andb]; auto.
  now apply Inv_closed.
Qed.

Lemma Inv_boot file : Inv (boot file).
Proof. constructor; cbn; auto. Qed.

Section Claims_close.

Context {ops : SnakeOps}.

(** Every run of the program, whatever the script and the score file, ends
    in a world that satisfies the invariant. *)
Lemma program_Inv e file : Inv (world_of (program e (boot file))).
Proof.
  apply keeps_world_of; [|apply Inv_boot].
  apply keeps_program.
  - apply Inv_logged.
  - intros b w [Hf Ho Hw Hn]. now constructor.
  - intros w [Hf Ho Hw Hn]. now constructor.
  - intros s w [Hf Ho Hw Hn]. now constructor.
  - apply Inv_click.
  - apply Inv_prompt.
Qed.

(** Once set, the close flag stays set. *)
Lemma close_flag_kept_by_main e w :
  is_on_close w = true -> is_on_close (world_of (main e w)) = true.
Proof.
  apply (keeps_world_of (fun w => is_on_close w = true)).
  apply keeps_main; auto using close_flag_click.
Qed.

Lemma bind_Ok_inv {A B} (m : M A) (k : A -> M B) w b w' :
  bind m k w = Ok b w' -> exists a w1, m w = Ok a w1 /\ k a w1 = Ok b w'.
Proof.
  unfold bind. destruct (m w) as [a w1|x w1|w1]; try discriminate.
  intros H. now exists a, w1.
Qed.

Lemma main_false_when_closed e w r w' :
  main e w = Ok r w' -> is_on_close w' = true -> r = false.
Proof.
  intros H Hc. unfold main in H.
  repeat match type of H with
         | bind _ _ _ = Ok _ _ =>
             let a := fresh "a" in
             let w1 := fresh "w" in
             let Hm := fresh "Hm" in
             apply bind_Ok_inv in H; destruct H as (a & w1 & Hm & H)
         | (match ?x with Some _ => _ | None => _ end) _ = Ok _ _ =>
             destruct x
         end.
  - match goal with
    | Hg : gets is_on_close _ = Ok ?c _ |- _ =>
        unfold gets in Hg; injection Hg as <- <-
    end.
    match type of H with
    | (if is_on_close ?W then _ else _) _ = _ =>
        destruct (is_on_close W) eqn:E
    end.
    + now injection H as <- _.
    + injection H as _ <-. congruence.
  - now injection H as <- _.
Qed.

Lemma prompts_precede_close_app l1 c l2 :
  prompts_precede_close (l1 ++ c :: l2) = true ->
  is_close_button c = true ->
  forall e, In e l1 -> is_new_game_prompt e = false.
Proof.
  intros H Hc. induction l1 as [|x l1 IH]; [intros e []|].
  cbn [app prompts_precede_close] in H. apply andb_prop in H.
  destruct H as [H1 H2]. intros e [<-|Hin]; [|now apply IH].
  rewrite existsb_app in H1. cbn [existsb] in H1. rewrite Hc in H1.
  rewrite orb_true_r in H1. cbn in H1. rewrite orb_false_r in H1.
  now apply negb_true_iff in H1.
Qed.

Lemma destroys_rev l : destroys (List.rev l) = destroys l.
Proof.
  unfold destroys. induction l as [|x l IH]; [reflexivity|].
  cbn [List.rev]. rewrite filter_app, length_app, IH.
  cbn [filter]. destruct (is_destroy x); cbn [List.length]; lia.
Qed.

(** C5: [on_close] calls destroy exactly when, on entry, [game_on] is false
    and [is_on_close] is true, and it always leaves [game_on] false and
    [is_on_close] true.  In every run of the program the window is destroyed
    at most once, no replay prompt is issued after an activation of the close
    button, a set close flag stays set through [main], and [main] returns
    False whenever it returns with the close flag set. *)
Theorem C5_destroy_guarded_and_no_replay_after_close :
  (forall w,
      exists w',
        on_close w = Ok tt w'
        /\ trace w'
           = trace w ++ EvCloseButton ::
               (if negb (game_on w) && is_on_close w
                then [EvDestroy] else goodbye_events)
        /\ (In EvDestroy (close_events w)
            <-> game_on w = false /\ is_on_close w = true)
        /\ game_on w' = false /\ is_on_close w' = true)
  /\ (forall e file,
         (destroys (trace (world_of (program e (boot file)))) <= 1)%nat)
  /\ (forall e file before after,
         trace (world_of (program e (boot file)))
         = before ++ EvCloseButton :: after ->
         ~ In (EvTextInput AskNewGame) after)
  /\ (forall e w,
         is_on_close w = true -> is_on_close (world_of (main e w)) = true)
  /\ (forall e w r w',
         main e w = Ok r w' -> is_on_close w' = true -> r = false).
Proof.
  split; [|split; [|split; [|split]]].
  - intros w. exists (closed w). rewrite on_close_spec.
    split; [reflexivity|]. split; [apply trace_closed|].
    split; [|split; reflexivity].
    unfold close_events, goodbye_events.
    destruct (game_on w), (is_on_close w); cbn; split;
      intros H; try tauto; try discriminate;
      repeat (destruct H as [H|H]; try discriminate H); try tauto;
      destruct H; discriminate.
  - intros e file. unfold trace. rewrite destroys_rev.
    apply (inv_once _ (program_Inv e file)).
  - intros e file before after E Hin.
    pose proof (inv_order _ (program_Inv e file)) as Ho.
    unfold trace in E. apply (f_equal (@List.rev Event)) in E.
    rewrite rev_involutive, rev_app_distr in E. cbn [List.rev] in E.
    rewrite <- app_assoc in E. cbn [app] in E. rewrite E in Ho.
    apply in_rev in Hin.
    now pose proof (prompts_precede_close_app _ _ _ Ho eq_refl _ Hin).
  - apply close_flag_kept_by_main.
  - apply main_false_when_closed.
Qed.

End Claims_close.

(** ** The speed prompt *)

Lemma speed_rejected_cases s w :
  (Py.isdigit s = false /\ speed_rejected s w = Ok true w)
  \/ (Py.isdigit s = true /\ Py.int s = None
      /\ speed_rejected s w = Raise ValueError w)
  \/ (exists n, Py.isdigit s = true /\ Py.int s = Some n
                /\ speed_rejected s w = Ok ((n >? 20) || (n <? 10)) w).
Proof.
  unfold speed_rejected. destruct (Py.isdigit s); cbn [negb].
  - right. destruct (Py.int s) as [n|].
    + right. now exists n.
    + left. now split.
  - left. now split.
Qed.

(** A speed that leaves the validation loop is a digit string whose value is
    between 10 and 20. *)
Lemma accepted_speed_is_valid rs : forall s w s' w',
  validate_speed rs s w = Ok (Some s') w' ->
  Py.isdigit s' = true /\ exists n, Py.int s' = Some n /\ 10 <= n <= 20.
Proof.
  induction rs as [|r rs IH]; intros s w s' w' H; simpl in H;
    apply bind_Ok_inv in H; destruct H as (rej & w1 & Hr & H);
    destruct (speed_rejected_cases s w) as [(Hd & E)|[(Hd & Hi & E)|(n & Hd & Hi & E)]];
    rewrite E in Hr; try discriminate Hr; injection Hr as <- <-;
    try discriminate H.
  - destruct ((n >? 20) || (n <? 10)) eqn:En; [discriminate H|].
    injection H as <- _. split; [exact Hd|]. exists n. split; [exact Hi|].
    apply orb_false_iff in En. destruct En as [E1 E2].
    rewrite Z.gtb_ltb in E1. apply Z.ltb_ge in E1, E2. lia.
  - do 5 (apply bind_Ok_inv in H; destruct H as (? & ? & _ & H)).
    destruct x7 as [s2|].
    + now apply IH in H.
    + apply bind_Ok_inv in H. destruct H as (? & ? & _ & H). discriminate H.
  - destruct ((n >? 20) || (n <? 10)) eqn:En.
    + do 5 (apply bind_Ok_inv in H; destruct H as (? & ? & _ & H)).
      destruct x7 as [s2|].
      * now apply IH in H.
      * apply bind_Ok_inv in H. destruct H as (? & ? & _ & H). discriminate H.
    + injection H as <- _. split; [exact Hd|]. exists n. split; [exact Hi|].
      apply orb_false_iff in En. destruct En as [E1 E2].
      rewrite Z.gtb_ltb in E1. apply Z.ltb_ge in E1, E2. lia.
Qed.

(** A digit string with a value between 10 and 20 is accepted at once. *)
Lemma valid_speed_accepted rs s n w :
  Py.isdigit s = true -> Py.int s = Some n -> 10 <= n <= 20 ->
  validate_speed rs s w = Ok (Some s) w.
Proof.
  intros Hd Hi Hn.
  assert (E : speed_rejected s w = Ok false w).
  { unfold speed_rejected. rewrite Hd, Hi. cbn [negb].
    destruct (Z.gtb_spec n 20); [lia|]. destruct (Z.ltb_spec n 10); [lia|].
    reflexivity. }
  destruct rs; simpl; now rewrite (bind_ok _ _ _ _ _ E).
Qed.


Section Claims_prompt.

Context {ops : SnakeOps}.

(** A cancelled first prompt: the goodbye message, and main returns False
    without creating the creature. *)
Lemma cancelled_prompt_returns_false n rs k f ts w :
  main (mkSession (mkAsk n None) rs k f ts) w
  = Ok false
       (log_all goodbye_events
          (Nat.iter n click
             (log_all [EvScreen; EvBgColor "slate blue"; EvTextInput AskSpeed]
                (with_game_on true w)))).
Proof. unfold main. run. reflexivity. Qed.

(** C6: the text made of superscript two passes [isdigit] but is no integer
    literal; answering the speed prompt with it makes main raise ValueError,
    with neither a hint nor a new prompt. *)
Theorem C6_superscript_digit_escapes_validation :
  Py.isdigit superscript_two = true
  /\ Py.int superscript_two = None
  /\ (forall n rs k f ts w,
         main (mkSession (mkAsk n (Some superscript_two)) rs k f ts) w
         = Raise ValueError
             (Nat.iter n click
                (log_all [EvScreen; EvBgColor "slate blue"; EvTextInput AskSpeed]
                   (with_game_on true w)))).
Proof.
  split; [reflexivity|]. split; [reflexivity|].
  intros n rs k f ts w. unfold main. run.
  apply bind_raise. unfold prompt_speed. run.
  destruct rs; reflexivity.
Qed.

End Claims_prompt.

(** ** After the game-over summary *)

Lemma closing_not_sleep es :
  forallb closing es = true -> existsb is_sleep es = false.
Proof.
  induction es as [|e es IH]; [reflexivity|].
  cbn [forallb existsb]. intros H. apply andb_prop in H. destruct H as [He Hes].
  rewrite (IH Hes), orb_false_r. now destruct e.
Qed.

Section Claims_pause.

Context {ops : SnakeOps}.

(** In a tick that ends the session, the only pause comes before the
    creature, the score and the food are hidden; nothing that follows the
    summary, up to the end of the tick, is a pause. *)
Lemma no_pause_after_summary e g w b :
  stored w b ->
  arm g (move (keys e) (snake g)) = Border
  \/ arm g (move (keys e) (snake g)) = Bit ->
  exists r w' earlier later,
    tick e g w = Ok r w'
    /\ trace w'
       = earlier
         ++ [EvSleep 300; EvHideSnake; EvTurtle ScoreWriter Clear; EvHideFood;
             EvFileRead]
         ++ save_events (score g) b
         ++ [EvTurtle ScoreWriter (Goto (0, 0)); EvBgColor "crimson";
             EvTurtle ScoreWriter (Color "peach puff"); EvFileRead;
             EvTurtle ScoreWriter (Write (MsgGameOver (shown_best (score g) b)))]
         ++ later
    /\ existsb is_sleep later = false.
Proof.
  intros H Ha. rewrite (tick_spec e g w b H). cbv zeta.
  set (o := arm g (move (keys e) (snake g))) in *.
  destruct (trace_ended (over_clicks e) (score g) b
              (started (move_clicks e) (score g) b w)) as (es & E & F).
  exists (o, game_after e g (move (keys e) (snake g)) o).
  eexists.
  exists (trace (started (move_clicks e) (score g) b w)).
  exists (corner_events ++ [EvWindowUpdate] ++ es ++ key_events).
  split; [reflexivity|]. split.
  - rewrite trace_log_all.
    assert (Ew : world_after e g b o (started (move_clicks e) (score g) b w)
                 = ended (over_clicks e) (score g) b
                         (started (move_clicks e) (score g) b w))
      by (destruct Ha as [-> | ->]; reflexivity).
    rewrite Ew, E. unfold hide_events, game_over_events.
    repeat (rewrite <- app_assoc || rewrite <- app_comm_cons).
    reflexivity.
  - rewrite !existsb_app, (closing_not_sleep es F). reflexivity.
Qed.

End Claims_pause.

(** C9: in the run [border_run], started with the score file holding 0, the
    pause of 300 ms precedes the hiding of the creature and the summary; the
    summary, the corner icons, the window update and the key bindings are
    followed at once by the replay prompt, with no pause in between. *)
Theorem C9_replay_prompt_follows_summary_without_pause :
  exists before after,
    trace (world_of (@program SpecSnake.spec_ops border_run
                              (boot (Some "0"%string))))
    = before
      ++ [EvSleep 300; EvHideSnake; EvTurtle ScoreWriter Clear; EvHideFood;
          EvFileRead;
          EvTurtle ScoreWriter (Goto (0, 0)); EvBgColor "crimson";
          EvTurtle ScoreWriter (Color "peach puff"); EvFileRead;
          EvTurtle ScoreWriter (Write (MsgGameOver 0));
          EvTurtle ScoreWriter (Goto (-470, 330));
          EvTurtle ScoreWriter (Write MsgDragon);
          EvTurtle ScoreWriter (Goto (-470, -330));
          EvTurtle ScoreWriter (Write MsgDragon);
          EvTurtle ScoreWriter (Goto (430, 330));
          EvTurtle ScoreWriter (Write MsgDragon);
          EvTurtle ScoreWriter (Goto (430, -330));
          EvTurtle ScoreWriter (Write MsgDragon);
          EvWindowUpdate;
          EvListen; EvOnKey KeyDown; EvOnKey KeyUp; EvOnKey KeyLeft;
          EvOnKey KeyRight;
          EvTextInput AskNewGame]
      ++ after.
Proof.
  set (t := trace (world_of (@program SpecSnake.spec_ops border_run
                                      (boot (Some "0"%string))))).
  exists (firstn 297 t), (skipn 322 t).
  vm_compute. reflexivity.
Qed.

(** ** The theorems at work on concrete sessions *)

Lemma fresh_world_stored : stored fresh_world 0.
Proof. exists "0"%string. split; reflexivity. Defined.

Lemma C3_witness :
  exists o g' w',
    @tick SpecSnake.spec_ops still_tick at_the_border fresh_world = Ok (o, g') w'
    /\ o = Border /\ game_on w' = false.
Proof.
  destruct (@C3_boundary_termination SpecSnake.spec_ops still_tick at_the_border
              fresh_world 0 fresh_world_stored)
    as (o & g' & w' & Ht & Hiff & Hend & _).
  assert (Ho : o = Border) by (apply Hiff; left; reflexivity).
  exists o, g', w'. split; [exact Ht|]. split; [exact Ho|].
  exact (proj1 (Hend Ho)).
Defined.

Lemma C2_witness :
  exists o g' w',
    @tick SpecSnake.spec_ops still_tick before_the_food fresh_world = Ok (o, g') w'
    /\ o = Ate /\ score g' = 4 /\ food g' = (300, 300)
    /\ List.length (turtles (snake g')) = 5%nat.
Proof.
  destruct (proj2 (@C2_score_monotone SpecSnake.spec_ops) still_tick
              before_the_food fresh_world 0 fresh_world_stored)
    as (o & g' & w' & Ht & _ & _ & Hate).
  assert (Hx : -485 <= 20 <= 485) by (split; discriminate).
  assert (Hy : -385 <= 0 <= 385) by (split; discriminate).
  destruct (Hate Hx Hy eq_refl) as (Ho & Hg & _).
  exists o, g', w'. split; [exact Ht|]. split; [exact Ho|].
  rewrite Hg. repeat split.
Defined.

Lemma C4_witness :
  exists o g' w',
    @tick SpecSnake.spec_ops left_tick about_to_reverse fresh_world = Ok (o, g') w'
    /\ o = Bit /\ game_on w' = false.
Proof.
  destruct (@C4_self_collision SpecSnake.spec_ops left_tick about_to_reverse
              fresh_world 0 fresh_world_stored eq_refl eq_refl)
    as (o & g' & w' & Ht & _ & Hend & _ & _ & Hfour).
  destruct (Hfour (-20, 0) (0, 0) (20, 0) (0, 0) eq_refl eq_refl) as (Hbit & _).
  pose proof (Hbit eq_refl) as Ho.
  exists o, g', w'. split; [exact Ht|]. split; [exact Ho|].
  exact (proj1 (Hend Ho)).
Defined.

Lemma C8_witness :
  exists w' es,
    game_over 0 7 (boot (Some "3"%string)) = Ok tt w'
    /\ trace w'
       = [EvFileRead; EvFileWrite "7";
          EvTurtle ScoreWriter (Goto (0, 0)); EvBgColor "crimson";
          EvTurtle ScoreWriter (Color "peach puff"); EvFileRead;
          EvTurtle ScoreWriter (Write (MsgGameOver 7))]
         ++ corner_events ++ [EvWindowUpdate] ++ es
    /\ score_file w' = Some "7"%string.
Proof.
  assert (H3 : stored (boot (Some "3"%string)) 3)
    by (exists "3"%string; split; reflexivity).
  destruct (C8_summary_after_persist 0 7 (boot (Some "3"%string)) 3 H3)
    as (w' & es & Hg & Ht & _ & _ & _ & _).
  exists w', es. split; [exact Hg|]. split; [exact Ht|].
  rewrite (game_over_spec 0 7 _ 3 H3) in Hg. injection Hg as <-. reflexivity.
Defined.

Lemma C1_witness :
  exists w1 w2,
    end_session 0 7 fresh_world = Ok tt w1
    /\ score_file w1 = Some "7"%string
    /\ end_session 0 5 w1 = Ok tt w2
    /\ score_file w2 = Some "7"%string.
Proof.
  destruct (@C1_best_score_only_at_session_end SpecSnake.spec_ops)
    as (_ & _ & Hscenario).
  exact (Hscenario 0%nat 0%nat fresh_world eq_refl).
Defined.

Lemma C7_witness :
  exists w',
    Score_init (boot None) = Ok 0 w'
    /\ score_file w' = Some "0"%string
    /\ read_file_score w' = Ok 0 (logged EvFileRead w').
Proof.
  destruct (@C7_missing_or_corrupt_file SpecSnake.spec_ops) as (Hmissing & _).
  exact (Hmissing (boot None) eq_refl).
Defined.

Lemma C10_witness :
  exists w',
    save_score 5 (boot (Some "7"%string)) = Ok tt w'
    /\ score_file w' = Some "5"%string.
Proof.
  destruct C10_save_score_unconditional as (_ & Hlower & _).
  exact (Hlower (boot (Some "7"%string)) eq_refl).
Defined.

Lemma C5_witness :
  ~ In (EvTextInput AskNewGame)
       (skipn 327 (trace (world_of (@program SpecSnake.spec_ops border_run
                                             fresh_world)))).
Proof.
  destruct (@C5_destroy_guarded_and_no_replay_after_close SpecSnake.spec_ops)
    as (_ & _ & Hquiet & _).
  apply (Hquiet border_run (Some "0"%string)
           (firstn 326 (trace (world_of (@program SpecSnake.spec_ops border_run
                                                  fresh_world))))).
  vm_compute. reflexivity.
Defined.

Lemma accepted_speed_example :
  Py.isdigit "15"%string = true
  /\ exists n, Py.int "15"%string = Some n /\ 10 <= n <= 20.
Proof.
  exact (accepted_speed_is_valid [] "15"%string (boot None) "15"%string
           (boot None) eq_refl).
Defined.

Lemma valid_speed_example :
  validate_speed [] "015"%string (boot None) = Ok (Some "015"%string) (boot None).
Proof.
  apply (valid_speed_accepted [] "015"%string 15 (boot None));
    [reflexivity | reflexivity | split; discriminate].
Defined.


Lemma no_pause_example :
  exists r w' earlier later,
    @tick SpecSnake.spec_ops still_tick at_the_border fresh_world = Ok r w'
    /\ trace w'
       = earlier
         ++ [EvSleep 300; EvHideSnake; EvTurtle ScoreWriter Clear; EvHideFood;
             EvFileRead; EvFileWrite "3";
             EvTurtle ScoreWriter (Goto (0, 0)); EvBgColor "crimson";
             EvTurtle ScoreWriter (Color "peach puff"); EvFileRead;
             EvTurtle ScoreWriter (Write (MsgGameOver 3))]
         ++ later
    /\ existsb is_sleep later = false.
Proof.
  exact (@no_pause_after_summary SpecSnake.spec_ops still_tick at_the_border
           fresh_world 0 fresh_world_stored (or_introl eq_refl)).
Defined.

(** Two sessions in one run, with no score file at the start: the first ends
    with score 7 and writes 7; the second ends with score 5 and writes
    nothing; both summaries show 7. *)
Lemma record_survives_a_lower_session :
  exists w,
    @program SpecSnake.spec_ops two_sessions (boot None) = Ok tt w
    /\ score_file w = Some "7"%string
    /\ file_writes (trace w) = ["0"%string; "7"%string]
    /\ summaries (trace w) = [7; 7].
Proof. eexists. split; [vm_compute; reflexivity|]. repeat split. Qed.

(** * Further properties of the code *)

(** ** Texts and numbers *)

Module TextFacts.
Import Py.

Lemma lstrip_space_app a t : all_space a = true -> lstrip (a ++ t) = lstrip t.
Proof.
  induction a as [|c a IH]; simpl; [reflexivity|].
  intros H. apply andb_prop in H. destruct H as [Hc Ha].
  rewrite Hc. now apply IH.
Qed.

Lemma rstrip_all_space b : all_space b = true -> rstrip b = EmptyString.
Proof.
  induction b as [|c b IH]; simpl; [reflexivity|].
  intros H. apply andb_prop in H. destruct H as [Hc Hb].
  now rewrite (IH Hb), Hc.
Qed.

Lemma rstrip_app_space t b : all_space b = true -> rstrip (t ++ b) = rstrip t.
Proof.
  intros Hb. induction t as [|c t IH]; simpl.
  - now apply rstrip_all_space.
  - now rewrite IH.
Qed.

Lemma lstrip_all_space b : all_space b = true -> lstrip b = EmptyString.
Proof.
  induction b as [|c b IH]; simpl; [reflexivity|].
  intros H. apply andb_prop in H. destruct H as [Hc Hb].
  rewrite Hc. now apply IH.
Qed.

Lemma strip_app_space s b : all_space b = true -> strip (s ++ b) = strip s.
Proof.
  intros Hb. unfold strip. induction s as [|c s IH]; simpl.
  - now rewrite (lstrip_all_space b Hb).
  - destruct (is_space c); [exact IH|].
    change (String c (s ++ b)) with (String c s ++ b)%string.
    now apply rstrip_app_space.
Qed.

(** [int] skips white space before and after the literal: a score file that
    ends with a newline, or a number typed with blanks around it, reads as
    the number. *)
Lemma int_ignores_outer_space (a s b : string) :
  all_space a = true -> all_space b = true ->
  int (a ++ s ++ b) = int s.
Proof.
  intros Ha Hb. unfold int.
  assert (E : strip (a ++ s ++ b) = strip s).
  { unfold strip. rewrite (lstrip_space_app a (s ++ b) Ha).
    apply (strip_app_space s b Hb). }
  now rewrite E.
Qed.

(** Facts about single characters, by running through the 256 of them. *)
Ltac by_cases_on c :=
  destruct c as [[] [] [] [] [] [] [] []]; vm_compute;
  intros; try discriminate; try congruence; auto.

Lemma digit_char_cases c :
  is_digit_char c = true ->
  (is_decimal c = true /\ is_superscript c = false)
  \/ (is_decimal c = false /\ is_superscript c = true).
Proof. by_cases_on c. Qed.

Lemma digit_char_not_space c : is_digit_char c = true -> is_space c = false.
Proof. by_cases_on c. Qed.

Lemma decimal_not_sign c :
  is_decimal c = true -> (code c =? 45)%N = false /\ (code c =? 43)%N = false.
Proof. by_cases_on c. Qed.

Lemma superscript_not_literal c :
  is_superscript c = true ->
  is_decimal c = false /\ is_underscore c = false
  /\ (code c =? 45)%N = false /\ (code c =? 43)%N = false.
Proof. by_cases_on c. Qed.

Lemma digit_value_range c : is_decimal c = true -> 0 <= digit_value c <= 9.
Proof. by_cases_on c; split; discriminate. Qed.

Lemma lower_char_y c :
  lower_char c = "y"%char -> c = "y"%char \/ c = "Y"%char.
Proof. by_cases_on c. Qed.

Lemma lower_char_n c :
  lower_char c = "n"%char -> c = "n"%char \/ c = "N"%char.
Proof. by_cases_on c. Qed.

Lemma digit_chars_no_space s : all_digit_chars s = true -> no_space s = true.
Proof.
  induction s as [|c s IH]; simpl; [reflexivity|].
  intros H. apply andb_prop in H. destruct H as [Hc Hs].
  now rewrite (digit_char_not_space c Hc), (IH Hs).
Qed.

Lemma digits_from_decimal s : forall acc,
  all_digit_chars s = true -> has_superscript s = false -> 0 <= acc ->
  exists n, digits_from acc s = Some n /\ acc <= n.
Proof.
  induction s as [|c s IH]; intros acc Hd Hs Hacc; simpl in *.
  - exists acc. split; [reflexivity|lia].
  - apply andb_prop in Hd. destruct Hd as [Hc Hd].
    apply orb_false_iff in Hs. destruct Hs as [Hsc Hs].
    destruct (digit_char_cases c Hc) as [[Hdec _]|[_ Hsup]]; [|congruence].
    rewrite Hdec. pose proof (digit_value_range c Hdec) as Hv.
    destruct (IH (10 * acc + digit_value c) Hd Hs) as (n & Hn & Hle); [lia|].
    exists n. split; [exact Hn|lia].
Qed.

Lemma digits_from_superscript s : forall acc,
  all_digit_chars s = true -> has_superscript s = true ->
  digits_from acc s = None.
Proof.
  induction s as [|c s IH]; intros acc Hd Hs; simpl in *; [discriminate Hs|].
  apply andb_prop in Hd. destruct Hd as [Hc Hd].
  destruct (digit_char_cases c Hc) as [[Hdec Hsup]|[Hdec Hsup]].
  - rewrite Hdec. rewrite Hsup in Hs. now apply IH.
  - destruct (superscript_not_literal c Hsup) as (_ & Hu & _).
    now rewrite Hdec, Hu.
Qed.

(** A text made of digits that [isdigit] accepts is an integer literal,
    with a value that is not negative, exactly when none of its characters
    is a superscript digit. *)
Lemma int_of_isdigit s :
  isdigit s = true ->
  (has_superscript s = false -> exists n, int s = Some n /\ 0 <= n)
  /\ (has_superscript s = true -> int s = None).
Proof.
  destruct s as [|c s]; [discriminate|]. intros H.
  change (all_digit_chars (String c s) = true) in H.
  pose proof (digit_chars_no_space _ H) as Hsp.
  unfold int. rewrite (PyFacts.strip_no_space _ Hsp).
  cbn [all_digit_chars] in H. apply andb_prop in H. destruct H as [Hc Hd].
  cbn [has_superscript].
  destruct (digit_char_cases c Hc) as [[Hdec Hsup]|[Hdec Hsup]]; rewrite Hsup.
  - destruct (decimal_not_sign c Hdec) as [Hm Hp]. rewrite Hm, Hp.
    cbn [digits orb]. rewrite Hdec.
    pose proof (digit_value_range c Hdec) as Hv. split.
    + intros Hs. destruct (digits_from_decimal s (digit_value c) Hd Hs) as (n & Hn & Hle);
        [lia|]. exists n. split; [exact Hn|lia].
    + intros Hs. now apply digits_from_superscript.
  - destruct (superscript_not_literal c Hsup) as (_ & _ & Hm & Hp).
    rewrite Hm, Hp. cbn [digits orb]. rewrite Hdec.
    split; [discriminate|reflexivity].
Qed.

Lemma digit_chars_uint d :
  all_digit_chars (DecimalString.NilEmpty.string_of_uint d) = true.
Proof. induction d; simpl; auto. Qed.

(** The decimal text of a number passes [isdigit] exactly when the number is
    not negative. *)
Lemma isdigit_str n : isdigit (str n) = true <-> 0 <= n.
Proof.
  unfold str. destruct n as [|p|p];
    cbn [Z.to_int DecimalString.NilEmpty.string_of_int].
  - split; [lia|reflexivity].
  - split; [lia|]. intros _.
    pose proof (PyFacts.nonempty_to_uint p) as Hne.
    pose proof (digit_chars_uint (Pos.to_uint p)) as Hd.
    destruct (Pos.to_uint p); try discriminate Hne; exact Hd.
  - split; [discriminate|lia].
Qed.

Lemma lower_is_y s :
  lower s = "y"%string <-> s = "y"%string \/ s = "Y"%string.
Proof.
  split.
  - destruct s as [|c [|d s]]; simpl; intros H; try discriminate H.
    injection H as H. destruct (lower_char_y c H) as [-> | ->]; auto.
  - intros [-> | ->]; reflexivity.
Qed.

Lemma lower_is_n s :
  lower s = "n"%string <-> s = "n"%string \/ s = "N"%string.
Proof.
  split.
  - destruct s as [|c [|d s]]; simpl; intros H; try discriminate H.
    injection H as H. destruct (lower_char_n c H) as [-> | ->]; auto.
  - intros [-> | ->]; reflexivity.
Qed.

End TextFacts.

(** ** The speed prompt, again *)


(** Typing the decimal text of a number: it is accepted at once exactly
    when the number is between 10 and 20. *)
Lemma typed_number_accepted_iff (n : Z) (rs : list Retry) (w : World) :
  validate_speed rs (Py.str n) w = Ok (Some (Py.str n)) w <-> 10 <= n <= 20.
Proof.
  split.
  - intros H. apply accepted_speed_is_valid in H.
    destruct H as (_ & m & Hm & Hr). rewrite PyFacts.int_str in Hm.
    injection Hm as <-. exact Hr.
  - intros H. apply (valid_speed_accepted rs (Py.str n) n w).
    + apply TextFacts.isdigit_str. lia.
    + apply PyFacts.int_str.
    + exact H.
Qed.

(** ** The close button, again *)

Lemma pump_unregistered n w : handler w = false -> Nat.iter n click w = w.
Proof.
  intros H. induction n; simpl; [reflexivity|].
  rewrite IHn, click_spec, H. reflexivity.
Qed.

Lemma pump_without_window n w : window w = false -> Nat.iter n click w = w.
Proof.
  intros H. induction n; simpl; [reflexivity|].
  rewrite IHn, click_spec, H. now rewrite andb_false_r.
Qed.

Lemma close_flag_pumped n w :
  is_on_close w = true -> is_on_close (Nat.iter n click w) = true.
Proof. induction n; simpl; auto using close_flag_click. Qed.

Lemma pumped_once n w :
  handler w = true -> window w = true ->
  game_on (Nat.iter (S n) click w) = false
  /\ is_on_close (Nat.iter (S n) click w) = true.
Proof.
  intros Hh Hw. rewrite Nat.iter_succ_r.
  assert (E : click w = closed w) by now rewrite click_spec, Hh, Hw.
  rewrite E. split; [now apply game_off_pumped|now apply close_flag_pumped].
Qed.

Lemma close_flag_ended n sc b w :
  is_on_close w = true -> is_on_close (ended n sc b w) = true.
Proof.
  intros H. unfold ended. apply close_flag_pumped.
  unfold persisted. now destruct (sc >? b).
Qed.


(** ** The tick, again *)

Section MoreTickFacts.

Context {ops : SnakeOps}.


(** A creature of two segments or fewer cannot bite itself: the scan runs
    over an empty list. *)
Lemma short_creature_never_bites (e : TickEnv) (g : Game) (w : World) (b : Z) :
  stored w b ->
  (List.length (turtles (move (keys e) (snake g))) <= 2)%nat ->
  exists o g' w', tick e g w = Ok (o, g') w' /\ o <> Bit.
Proof.
  intros H Hlen. rewrite (tick_spec e g w b H). cbv zeta.
  do 3 eexists. split; [reflexivity|].
  unfold arm, but_last_two.
  replace (List.length (turtles (move (keys e) (snake g))) - 2)%nat with 0%nat
    by lia.
  cbn [firstn existsb].
  destruct (border_hit _); [discriminate|].
  destruct (closer_than 15 _ _); discriminate.
Qed.


(** The loop runs no tick after one that left [game_on] false, whatever the
    script still holds: a tick that ended the session, or during which the
    close button was activated, is the last. *)
Lemma last_tick (e : TickEnv) (es : list TickEnv) (g : Game) (w : World)
      (r : Outcome * Game) (w1 : World) :
  game_on w = true ->
  tick e g w = Ok r w1 ->
  game_on w1 = false ->
  play (e :: es) g w = Ok (snd r) w1.
Proof.
  intros Hon Ht Hoff. rewrite (play_step e es g w Hon).
  rewrite (bind_ok _ _ _ _ _ Ht). now apply play_off.
Qed.

(** A tick in which the close button is activated while the creature
    moves leaves [game_on] false and the close recorded: with [last_tick], it
    is the last. *)
Lemma close_button_stops_the_loop (e : TickEnv) (g : Game) (w : World) (b : Z) :
  stored w b -> handler w = true -> window w = true ->
  (0 < move_clicks e)%nat ->
  exists r w1,
    tick e g w = Ok r w1 /\ game_on w1 = false /\ is_on_close w1 = true.
Proof.
  intros H Hh Hw Hn. rewrite (tick_spec e g w b H). cbv zeta.
  do 2 eexists. split; [reflexivity|].
  assert (Hs : game_on (started (move_clicks e) (score g) b w) = false
               /\ is_on_close (started (move_clicks e) (score g) b w) = true).
  { unfold started. destruct (move_clicks e) as [|n]; [lia|].
    now apply pumped_once. }
  destruct Hs as [Hg Hc].
  change (game_on (log_all key_events ?W)) with (game_on W).
  change (is_on_close (log_all key_events ?W)) with (is_on_close W).
  destruct (arm g (move (keys e) (snake g))); cbn [world_after];
    split; try assumption; try apply game_off_ended;
    now apply close_flag_ended.
Qed.

End MoreTickFacts.

(** ** The replay loop and the sessions it starts *)

Lemma eqb_y_iff (a : option string) :
  String.eqb (Py.lower (Py.str_opt a)) "y" = true
  <-> a = Some "y"%string \/ a = Some "Y"%string.
Proof.
  rewrite String.eqb_eq. destruct a as [s|]; cbn [Py.str_opt].
  - rewrite TextFacts.lower_is_y. split; intros [H|H]; subst; auto;
      injection H as ->; auto.
  - split; [discriminate|intros [H|H]; discriminate H].
Qed.

Lemma eqb_n_iff (a : option string) :
  String.eqb (Py.lower (Py.str_opt a)) "n" = true
  <-> a = Some "n"%string \/ a = Some "N"%string.
Proof.
  rewrite String.eqb_eq. destruct a as [s|]; cbn [Py.str_opt].
  - rewrite TextFacts.lower_is_n. split; intros [H|H]; subst; auto;
      injection H as ->; auto.
  - split; [discriminate|intros [H|H]; discriminate H].
Qed.

Section ReplayFacts.

Context {ops : SnakeOps}.

(** What the replay loop does with each answer, while no close has been
    recorded: y or Y clears the window and runs [main] again; n, N or a
    cancelled dialog shows the goodbye message and ends the loop, whatever
    the script still holds; any other text (yes, a blank before the y, the
    word None) is shown back as an invalid entry for 1.3 s, and the
    prompt comes again. *)
Lemma replay_answers (r : Round) (rs : list Round) (w : World) :
  is_on_close w = false ->
  (answer (new_game_ask r) = Some "y"%string
   \/ answer (new_game_ask r) = Some "Y"%string ->
   replay (r :: rs) w
   = (main (session r) ;; replay rs)
       (logged EvWindowClear
          (Nat.iter (clicks (new_game_ask r)) click
             (logged (EvTextInput AskNewGame) w))))
  /\ (answer (new_game_ask r) = None
      \/ answer (new_game_ask r) = Some "n"%string
      \/ answer (new_game_ask r) = Some "N"%string ->
      replay (r :: rs) w
      = Ok tt (log_all goodbye_events
                 (Nat.iter (clicks (new_game_ask r)) click
                    (logged (EvTextInput AskNewGame) w))))
  /\ (forall s,
         answer (new_game_ask r) = Some s ->
         s <> "y"%string -> s <> "Y"%string ->
         s <> "n"%string -> s <> "N"%string ->
         replay (r :: rs) w
         = replay rs
             (log_all [EvSleep 1300; EvTurtle WriteMessage Clear]
                (Nat.iter (invalid_clicks r) click
                   (log_all (invalid_entry_events s)
                      (Nat.iter (clicks (new_game_ask r)) click
                         (logged (EvTextInput AskNewGame) w)))))).
Proof.
  intros Hc.
  assert (E : forall k : option string -> M unit,
    (closed <- gets is_on_close ;;
     if negb closed then
       new_game <- textinput AskNewGame (new_game_ask r) ;; k new_game
     else ret tt) w
    = k (answer (new_game_ask r))
        (Nat.iter (clicks (new_game_ask r)) click
           (logged (EvTextInput AskNewGame) w))).
  { intros k. unfold bind at 1. unfold gets. rewrite Hc. cbn [negb].
    unfold textinput. run. reflexivity. }
  cbn [replay]. rewrite E. clear E.
  pose proof (eqb_y_iff (answer (new_game_ask r))) as Hy.
  pose proof (eqb_n_iff (answer (new_game_ask r))) as Hn.
  destruct (String.eqb (Py.lower (Py.str_opt (answer (new_game_ask r)))) "y")
    eqn:Ey;
  destruct (String.eqb (Py.lower (Py.str_opt (answer (new_game_ask r)))) "n")
    eqn:En.
  - exfalso. destruct (proj1 Hy eq_refl) as [H|H], (proj1 Hn eq_refl) as [H'|H'];
      congruence.
  - split; [|split].
    + intros _. run. reflexivity.
    + intros H. exfalso.
      destruct (proj1 Hy eq_refl) as [H1|H1], H as [H|[H|H]]; congruence.
    + intros s Hs N1 N2 _ _. exfalso.
      destruct (proj1 Hy eq_refl) as [H1|H1]; congruence.
  - split; [|split].
    + intros H. apply Hy in H. discriminate H.
    + intros _. cbn [orb]. unfold show_goodbye_message. run. reflexivity.
    + intros s Hs _ _ N1 N2. exfalso.
      destruct (proj1 Hn eq_refl) as [H1|H1]; congruence.
  - split; [|split].
    + intros H. apply Hy in H. discriminate H.
    + intros [H|H]; [|apply Hn in H; discriminate H].
      rewrite H. cbn [orb]. unfold show_goodbye_message. run. reflexivity.
    + intros s Hs _ _ _ _. rewrite Hs. cbn [orb Py.str_opt]. run. reflexivity.
Qed.

(** The replay loop does not look at what [main] returns: when the speed
    prompt of a session started from the replay prompt is cancelled (and the
    close button left alone), the goodbye message is shown and the loop goes
    on, with [game_on] still true and no close recorded, so that the replay
    prompt comes again. *)
Lemma replay_goes_on_after_cancelled_speed
      (yes : string) (k : nat) (retries : list Retry) (c : nat) (f : Pos)
      (ts : list TickEnv) (rs : list Round) (w : World) :
  is_on_close w = false ->
  yes = "y"%string \/ yes = "Y"%string ->
  exists w',
    replay (mkRound (mkAsk 0 (Some yes)) k
                    (mkSession (mkAsk 0 None) retries c f ts) :: rs) w
    = replay rs w'
    /\ trace w'
       = trace w ++ [EvTextInput AskNewGame; EvWindowClear] ++ opening_events
         ++ goodbye_events
    /\ is_on_close w' = false /\ game_on w' = true.
Proof.
  intros Hc Hy.
  destruct (replay_answers
              (mkRound (mkAsk 0 (Some yes)) k
                       (mkSession (mkAsk 0 None) retries c f ts)) rs w Hc)
    as (Hyes & _ & _).
  eexists. split; [|split; [|split]].
  - rewrite Hyes by (destruct Hy as [-> | ->]; auto).
    cbn [new_game_ask clicks session Nat.iter].
    erewrite bind_ok by (apply cancelled_prompt_returns_false).
    reflexivity.
  - unfold trace. cbn. rewrite <- !app_assoc. reflexivity.
  - exact Hc.
  - reflexivity.
Qed.

(** When the very first speed prompt is cancelled, [on_close] is never
    registered and the program goes from the goodbye message straight to
    [exitonclick]: no replay prompt, whatever the script holds. *)
Lemma first_prompt_cancelled
      (n : nat) (retries : list Retry) (c : nat) (f : Pos) (ts : list TickEnv)
      (rounds : list Round) (x : nat) (file : option string) :
  exists w',
    program (mkProgram (mkSession (mkAsk n None) retries c f ts) rounds x)
            (boot file) = Ok tt w'
    /\ trace w'
       = [EvClearTerminal; EvNewFood "lavender"] ++ opening_events
         ++ goodbye_events ++ [EvExitOnClick]
    /\ handler w' = false /\ score_file w' = file.
Proof.
  eexists. split; [|split; [|split]].
  - unfold program. run. reflexivity.
  - cbn [first_session speed_ask clicks exit_clicks].
    rewrite (pump_unregistered n) by reflexivity.
    rewrite (pump_unregistered x) by reflexivity. reflexivity.
  - cbn [first_session speed_ask clicks exit_clicks].
    rewrite (pump_unregistered n) by reflexivity.
    rewrite (pump_unregistered x) by reflexivity. reflexivity.
  - cbn [first_session speed_ask clicks exit_clicks].
    rewrite (pump_unregistered n) by reflexivity.
    rewrite (pump_unregistered x) by reflexivity. reflexivity.
Qed.

End ReplayFacts.

Section WelcomeFacts.

Context {ops : SnakeOps}.

Lemma welcome_click (W : World) :
  handler W = true -> window W = true -> game_on W = true ->
  click W = mkWorld false true true true (score_file W)
                    (List.rev (EvCloseButton :: goodbye_events) ++ log W).
Proof.
  intros Hh Hw Hg. rewrite click_spec, Hh, Hw. cbn [andb].
  unfold closed, close_events. rewrite Hh, Hw, Hg. reflexivity.
Qed.

(** One activation of the close button while the welcome screen is shown
    (after a speed accepted at the first prompt): [main] still creates the
    food, the creature and the score, creating the score file when it is
    missing, runs no tick and returns False; the window is not destroyed. *)
Lemma close_button_during_welcome
      (sp : string) (n : Z) (retries : list Retry) (f : Pos)
      (ts : list TickEnv) (w : World) :
  Py.isdigit sp = true -> Py.int sp = Some n -> 10 <= n <= 20 ->
  window w = true ->
  exists w' es,
    main (mkSession (mkAsk 0 (Some sp)) retries 1 f ts) w = Ok false w'
    /\ trace w' = trace w ++ es
    /\ existsb is_snake_move es = false
    /\ In (EvNewSnake n) es
    /\ game_on w' = false /\ is_on_close w' = true /\ window w' = true
    /\ score_file w'
       = match score_file w with None => Some "0"%string | Some s => Some s end.
Proof.
  intros Hd Hi Hn Hw. destruct w as [g c h wi file lg].
  cbn in Hw. subst wi. unfold main. run.
  erewrite bind_ok
    by (unfold prompt_speed; run; apply (valid_speed_accepted _ sp n); assumption).
  cbv beta iota. run.
  cbn [start_clicks ticks first_food clicks speed_ask Nat.iter].
  rewrite welcome_click by reflexivity.
  rewrite Hi. run.
  destruct file as [s|]; run;
    (erewrite bind_ok by (apply play_off; reflexivity));
    run; cbn [is_on_close];
    do 2 eexists; (split; [reflexivity|]);
    (split; [unfold trace; cbn; rewrite <- !app_assoc; reflexivity|]);
    cbn; repeat split; tauto.
Qed.

End WelcomeFacts.

(** ** Invariants that the end of a session keeps *)

Create HintDb steady.

Section Steady.

Variables I P : World -> Prop.
Hypothesis S_abn : forall w, P w -> I w.
Hypothesis S_logged : forall e w, P w -> P (logged e w).
Hypothesis S_game_on : forall w, P w -> P (with_game_on true w).
Hypothesis S_handler : forall w, P w -> P (with_handler true w).
Hypothesis S_click : forall w, P w -> P (click w).
Hypothesis S_Score_init : steady I P Score_init.
Hypothesis S_end_session : forall n sc, steady I P (end_session n sc).

Lemma st_bind {A B} (m : M A) (k : A -> M B) :
  steady I P m -> (forall a, steady I P (k a)) -> steady I P (bind m k).
Proof. intros Hm Hk. now apply (hoare_bind I P m k (fun _ => P)). Qed.

Lemma st_ret {A} (a : A) : steady I P (ret a).
Proof. intros w Hw. exact Hw. Qed.

Lemma st_gets {A} (f : World -> A) : steady I P (gets f).
Proof. intros w Hw. exact Hw. Qed.

Lemma st_raise {A} (x : Exn) : steady I P (@raise A x).
Proof. intros w Hw. now apply S_abn. Qed.

Lemma st_blocked {A} : steady I P (@blocked A).
Proof. intros w Hw. now apply S_abn. Qed.

Lemma st_emit e : steady I P (emit e).
Proof. intros w Hw. now apply S_logged. Qed.

Lemma st_turtle t op : steady I P (turtle t op).
Proof. apply st_emit. Qed.

Lemma st_sleep ms : steady I P (sleep ms).
Proof. apply st_emit. Qed.

Lemma st_game_on : steady I P (modify (with_game_on true)).
Proof. intros w Hw. now apply S_game_on. Qed.

Lemma st_handler : steady I P (modify (with_handler true)).
Proof. intros w Hw. now apply S_handler. Qed.

Lemma st_pump n : steady I P (pump n).
Proof.
  intros w Hw. cbn. induction n; simpl; [exact Hw|now apply S_click].
Qed.

#[local] Hint Resolve st_ret st_gets st_raise st_blocked st_emit st_turtle
  st_sleep st_game_on st_handler st_pump S_Score_init S_end_session : steady.

(** Splits a computation along its binds and conditionals and closes the
    leaves with the lemmas already known. *)
Ltac steadily :=
  repeat first
    [ solve [auto with steady]
    | apply st_bind; [|intros ?]
    | match goal with
      | |- steady _ _ (if ?b then _ else _) => destruct b
      | |- steady _ _ (match ?x with _ => _ end) => destruct x
      end ].

Lemma st_read : steady I P read_file_score.
Proof. unfold read_file_score. steadily. Qed.
#[local] Hint Resolve st_read : steady.

Lemma st_score_update sc : steady I P (score_update sc).
Proof. unfold score_update. steadily. Qed.

Lemma st_window_update n : steady I P (window_update n).
Proof. unfold window_update. steadily. Qed.

Lemma st_textinput d a : steady I P (textinput d a).
Proof. unfold textinput. steadily. Qed.

Lemma st_goodbye : steady I P show_goodbye_message.
Proof. unfold show_goodbye_message. steadily. Qed.
#[local] Hint Resolve st_score_update st_window_update st_textinput
  st_goodbye : steady.

Lemma st_bite_scan n sc h segments : steady I P (bite_scan n sc h segments).
Proof. induction segments; simpl; steadily. Qed.

Lemma st_bind_keys : steady I P bind_keys.
Proof. unfold bind_keys. steadily. Qed.

Lemma st_start_screen n : steady I P (show_start_screen n).
Proof. unfold show_start_screen. steadily. Qed.

Lemma st_speed_rejected s : steady I P (speed_rejected s).
Proof. unfold speed_rejected. steadily. Qed.
#[local] Hint Resolve st_bite_scan st_bind_keys st_start_screen
  st_speed_rejected : steady.

Lemma st_validate_speed rs : forall s, steady I P (validate_speed rs s).
Proof. induction rs as [|r rs IH]; intros s; simpl; steadily. Qed.
#[local] Hint Resolve st_validate_speed : steady.

Lemma st_prompt_speed e : steady I P (prompt_speed e).
Proof. unfold prompt_speed. steadily. Qed.
#[local] Hint Resolve st_prompt_speed : steady.

Context {ops : SnakeOps}.

Lemma st_checks e g s : steady I P (checks e g s).
Proof. unfold checks. steadily. Qed.
#[local] Hint Resolve st_checks : steady.

Lemma st_tick e g : steady I P (tick e g).
Proof. unfold tick. steadily. Qed.
#[local] Hint Resolve st_tick : steady.

Lemma st_play es : forall g, steady I P (play es g).
Proof. induction es as [|e es IH]; intros g; simpl; steadily. Qed.
#[local] Hint Resolve st_play : steady.

Lemma st_main e : steady I P (main e).
Proof. unfold main. steadily. Qed.
#[local] Hint Resolve st_main : steady.

Lemma st_replay rs : steady I P (replay rs).
Proof. induction rs as [|r rs IH]; simpl; steadily. Qed.
#[local] Hint Resolve st_replay : steady.

Lemma st_program e : steady I P (program e).
Proof. unfold program. steadily. Qed.

End Steady.

(** ** The stored best over a whole run *)

Lemma best_same_file b0 w w' :
  score_file w' = score_file w -> best_at_least b0 w -> best_at_least b0 w'.
Proof.
  intros E (b & Hs & Hle). exists b. split; [|exact Hle].
  now apply (stored_same_file w).
Qed.

Lemma stored_ended n sc b w :
  stored w b -> stored (ended n sc b w) (shown_best sc b).
Proof.
  intros H. unfold ended.
  eapply stored_same_file; [apply file_pumped|].
  eapply stored_same_file; [reflexivity|].
  apply stored_persisted. now apply (stored_same_file w).
Qed.

Lemma Score_init_cases w :
  exists w' es,
    Score_init w = Ok 0 w'
    /\ trace w' = trace w ++ es
    /\ existsb is_summary es = false
    /\ game_on w' = game_on w /\ is_on_close w' = is_on_close w
    /\ score_file w'
       = match score_file w with None => Some "0"%string | Some s => Some s end.
Proof.
  unfold Score_init. run. cbn [score_file logged].
  destruct (score_file w) as [s|] eqn:Hs; run;
    do 2 eexists; (split; [reflexivity|]);
    (split; [unfold trace; cbn; rewrite <- ?app_assoc; reflexivity|]);
    cbn; auto.
Qed.

Lemma end_session_raise n sc w x :
  read_file_score (log_all hide_events (with_game_on false w))
  = Raise x (logged EvFileRead (log_all hide_events (with_game_on false w))) ->
  end_session n sc w
  = Raise x (logged EvFileRead (log_all hide_events (with_game_on false w))).
Proof.
  intros H. unfold end_session. run. unfold game_over.
  apply bind_raise. exact H.
Qed.

Section WholeRun.

Context {ops : SnakeOps}.

(** When the score file holds an integer as the program starts, it holds an
    integer that is no smaller wherever the run ends, be it by returning, by
    an exception or waiting for input: the stored best never decreases and
    the file never becomes unreadable. *)
Theorem stored_best_never_decreases (e : ProgramEnv) (s : string) (b : Z) :
  Py.int s = Some b ->
  exists b', stored (world_of (program e (boot (Some s)))) b' /\ b <= b'.
Proof.
  intros Hi.
  apply (keeps_world_of (best_at_least b)).
  - apply (st_program (best_at_least b) (best_at_least b)).
    + auto.
    + intros ev w. now apply best_same_file.
    + intros w. now apply best_same_file.
    + intros w. now apply best_same_file.
    + intros w. apply best_same_file, file_click.
    + intros w Hw. destruct (Score_init_cases w) as (w' & es & E & _ & _ & _ & _ & Hf).
      rewrite E. cbn [world_of] in *.
      apply (best_same_file b w); [|exact Hw].
      rewrite Hf. destruct Hw as (b1 & (s1 & Hs1 & _) & _). now rewrite Hs1.
    + intros n sc w (b1 & Hs1 & Hle). rewrite (end_session_spec n sc w b1 Hs1).
      exists (shown_best sc b1). split; [now apply stored_ended|].
      unfold shown_best. destruct (Z.gtb_spec sc b1); lia.
  - exists b. split; [|lia]. exists s. now split.
Qed.

Lemma play_ok_off es : forall g w g' w',
  play es g w = Ok g' w' -> game_on w' = false.
Proof.
  induction es as [|e es IH]; intros g w g' w' H;
    apply play_cases in H;
    destruct H as [(Hoff & _ & ->)|(e' & es' & b & E & _ & _ & H)];
    try assumption; try discriminate E.
  injection E as <- <-. now apply IH in H.
Qed.

Lemma accounted_logged t0 e w : accounted t0 w -> accounted t0 (logged e w).
Proof.
  intros (es & Et & H). exists (es ++ [e]). split.
  - change (logged e w) with (log_all [e] w).
    now rewrite trace_log_all, Et, app_assoc.
  - cbn [is_on_close game_on logged]. rewrite existsb_app.
    destruct H as [H|[H|H]]; auto. right. right. now rewrite H.
Qed.

Lemma accounted_click t0 w : accounted t0 w -> accounted t0 (click w).
Proof.
  intros (es & Et & H). destruct (trace_click w) as (es' & Et' & _).
  exists (es ++ es'). split; [now rewrite Et', Et, app_assoc|].
  rewrite click_spec, existsb_app.
  destruct (handler w && window w); [now left|].
  destruct H as [H|[H|H]]; auto. right. right. now rewrite H.
Qed.

Lemma accounted_main t0 e : steady (fun _ => True) (accounted t0) (main e).
Proof.
  apply st_main.
  - auto.
  - intros ev w. apply accounted_logged.
  - intros w (es & Et & _). exists es. split; [exact Et|]. right. now left.
  - intros w (es & Et & H). exists es. now split.
  - intros w. apply accounted_click.
  - intros w (es & Et & H).
    destruct (Score_init_cases w) as (w' & es' & E & Et' & _ & Hg & Hc & _).
    rewrite E. exists (es ++ es'). split; [now rewrite Et', Et, app_assoc|].
    rewrite Hg, Hc, existsb_app.
    destruct H as [H|[H|H]]; auto. right. right. now rewrite H.
  - intros n sc w (es & Et & _).
    destruct (stored_dec (log_all hide_events (with_game_on false w)))
      as [(b & Hb)|(x & Hx)].
    + assert (Hs : stored w b) by (revert Hb; now apply stored_same_file).
      rewrite (end_session_spec n sc w b Hs).
      destruct (trace_ended n sc b w) as (es1 & E1 & _).
      exists (es ++ hide_events ++ [EvFileRead] ++ save_events sc b
                 ++ game_over_events (shown_best sc b) ++ es1).
      split; [now rewrite E1, Et, <- app_assoc|].
      right. right. rewrite !existsb_app.
      assert (Hg : existsb is_summary (game_over_events (shown_best sc b)) = true)
        by reflexivity.
      rewrite Hg. now rewrite !orb_true_r.
    + now rewrite (end_session_raise n sc w x Hx).
Qed.

(** [main] returns True only after a collision ended the session: a
    game-over summary has been drawn during the call, [game_on] is false,
    and no close has been recorded. *)
Theorem main_true_only_after_summary (e : SessionEnv) (w w' : World) :
  main e w = Ok true w' ->
  game_on w' = false /\ is_on_close w' = false
  /\ exists es b,
       trace w' = trace w ++ es
       /\ In (EvTurtle ScoreWriter (Write (MsgGameOver b))) es.
Proof.
  intros H.
  assert (Hacc : accounted (trace w) w').
  { pose proof (accounted_main (trace w) e (with_game_on true w)) as Hm.
    change (main e (with_game_on true w)) with (main e w) in Hm.
    rewrite H in Hm. apply Hm.
    exists []. split; [now rewrite app_nil_r|]. right. now left. }
  assert (Hflags : game_on w' = false /\ is_on_close w' = false).
  { unfold main in H.
    repeat match type of H with
           | bind _ _ _ = Ok _ _ =>
               let a := fresh "a" in
               let w1 := fresh "w" in
               let Hm := fresh "Hm" in
               apply bind_Ok_inv in H; destruct H as (a & w1 & Hm & H)
           | (match ?x with Some _ => _ | None => _ end) _ = Ok _ _ =>
               destruct x
           end; [|discriminate H].
    match goal with
    | Hg : gets is_on_close _ = Ok _ _ |- _ =>
        unfold gets in Hg; injection Hg as <- <-
    end.
    match goal with
    | Hp : play _ _ _ = Ok _ ?W |- _ =>
        pose proof (play_ok_off _ _ _ _ _ Hp) as Hoff;
        destruct (is_on_close W) eqn:E; [discriminate H|];
        injection H as <-; now split
    end. }
  destruct Hflags as [Hg Hc]. split; [exact Hg|]. split; [exact Hc|].
  destruct Hacc as (es & Et & [Hx|[Hx|Hx]]); try congruence.
  apply existsb_exists in Hx. destruct Hx as (ev & Hin & Hev).
  destruct ev as [| | | | | |t op| | | | | | | | | | | | | | | | |];
    try discriminate Hev.
  destruct t; try discriminate Hev.
  destruct op as [|m| |]; try discriminate Hev.
  destruct m; try discriminate Hev.
  now exists es, best.
Qed.

End WholeRun.

Section ClosePlay.

Context {ops : SnakeOps}.

(** The tick during which the close button is activated is the last one:
    whatever the script still holds, the loop ends after it with [game_on]
    false and the close recorded. *)
Lemma close_button_ends_play (e : TickEnv) (g : Game) (w : World) (b : Z) :
  stored w b -> handler w = true -> window w = true -> game_on w = true ->
  (0 < move_clicks e)%nat ->
  exists g' w',
    game_on w' = false /\ is_on_close w' = true
    /\ forall es, play (e :: es) g w = Ok g' w'.
Proof.
  intros H Hh Hw Hg Hn.
  destruct (close_button_stops_the_loop e g w b H Hh Hw Hn)
    as (r & w1 & Ht & Hoff & Hc).
  exists (snd r), w1. split; [exact Hoff|]. split; [exact Hc|].
  intros es. now apply (last_tick e es g w r w1).
Qed.

End ClosePlay.

(** ** The further properties on concrete inputs *)

Lemma outer_space_example :
  Py.int (" " ++ "42" ++ line_feed) = Py.int "42"%string.
Proof.
  apply (TextFacts.int_ignores_outer_space " " "42" line_feed); reflexivity.
Defined.


Lemma short_creature_example :
  exists o g' w',
    @tick SpecSnake.spec_ops still_tick two_segments fresh_world = Ok (o, g') w'
    /\ o <> Bit.
Proof.
  apply (@short_creature_never_bites SpecSnake.spec_ops still_tick two_segments
           fresh_world 0 fresh_world_stored).
  apply le_n.
Defined.


Lemma close_button_ends_play_example :
  exists g' w',
    game_on w' = false /\ is_on_close w' = true
    /\ forall es,
         @play SpecSnake.spec_ops (closing_tick :: es) before_the_food
               playing_world = Ok g' w'.
Proof.
  apply (@close_button_ends_play SpecSnake.spec_ops closing_tick before_the_food
           playing_world 0);
    [exists "0"%string; split; reflexivity
    | reflexivity | reflexivity | reflexivity | apply le_n].
Defined.

Lemma replay_answers_example :
  @replay SpecSnake.spec_ops [yes_round] (boot None)
  = @replay SpecSnake.spec_ops []
      (log_all ([EvTextInput AskNewGame] ++ invalid_entry_events "yes"
                ++ [EvSleep 1300; EvTurtle WriteMessage Clear])
               (boot None)).
Proof.
  destruct (@replay_answers SpecSnake.spec_ops yes_round [] (boot None) eq_refl)
    as (_ & _ & H).
  apply (H "yes"%string eq_refl); discriminate.
Defined.

Lemma replay_goes_on_example :
  exists w',
    @replay SpecSnake.spec_ops
      [mkRound (mkAsk 0 (Some "Y"%string)) 0
               (mkSession (mkAsk 0 None) [] 0 (0, 0) [])] (boot None)
    = @replay SpecSnake.spec_ops [] w'
    /\ trace w'
       = trace (boot None) ++ [EvTextInput AskNewGame; EvWindowClear]
         ++ opening_events ++ goodbye_events
    /\ is_on_close w' = false /\ game_on w' = true.
Proof.
  exact (@replay_goes_on_after_cancelled_speed SpecSnake.spec_ops "Y" 0 [] 0
           (0, 0) [] [] (boot None) eq_refl (or_intror eq_refl)).
Defined.

Lemma close_button_during_welcome_example :
  exists w' es,
    @main SpecSnake.spec_ops
          (mkSession (mkAsk 0 (Some "15"%string)) [] 1 (0, 0) []) (boot None)
    = Ok false w'
    /\ trace w' = trace (boot None) ++ es
    /\ existsb is_snake_move es = false
    /\ In (EvNewSnake 15) es
    /\ game_on w' = false /\ is_on_close w' = true /\ window w' = true
    /\ score_file w' = Some "0"%string.
Proof.
  apply (@close_button_during_welcome SpecSnake.spec_ops "15" 15 [] (0, 0) []
           (boot None));
    [reflexivity | reflexivity | split; discriminate | reflexivity].
Defined.

Lemma stored_best_example :
  exists b',
    stored (world_of (@program SpecSnake.spec_ops two_sessions
                               (boot (Some "3"%string)))) b'
    /\ 3 <= b'.
Proof.
  exact (@stored_best_never_decreases SpecSnake.spec_ops two_sessions
           "3"%string 3 eq_refl).
Defined.

Lemma main_true_example :
  game_on (world_of (@main SpecSnake.spec_ops (first_session border_run)
                           fresh_world)) = false
  /\ is_on_close (world_of (@main SpecSnake.spec_ops (first_session border_run)
                                  fresh_world)) = false
  /\ exists es b,
       trace (world_of (@main SpecSnake.spec_ops (first_session border_run)
                              fresh_world))
       = trace fresh_world ++ es
       /\ In (EvTurtle ScoreWriter (Write (MsgGameOver b))) es.
Proof.
  apply (@main_true_only_after_summary SpecSnake.spec_ops
           (first_session border_run) fresh_world).
  vm_compute. reflexivity.
Defined.

(** ** Runs without exceptions *)

Lemma sure_bind P {A B} (m : M A) (k : A -> M B) Q R :
  sure P m Q -> (forall a, sure (Q a) (k a) R) -> sure P (bind m k) R.
Proof.
  intros Hm Hk w Hw. unfold bind. specialize (Hm w Hw).
  destruct (m w) as [a w'|x w'|w']; auto. now apply Hk.
Qed.

Lemma sure_weaken (P P' : World -> Prop) {A} (m : M A) (Q Q' : A -> World -> Prop) :
  sure P' m Q' -> (forall w, P w -> P' w) ->
  (forall a w, Q' a w -> Q a w) -> sure P m Q.
Proof.
  intros H HP HQ w Hw. specialize (H w (HP w Hw)).
  destruct (m w); auto.
Qed.

(** What is known of every value returned may be added to the postcondition. *)
Lemma sure_value P {A} (m : M A) Q (V : A -> Prop) :
  sure P m Q -> (forall w a w', m w = Ok a w' -> V a) ->
  sure P m (fun a w => Q a w /\ V a).
Proof.
  intros H HV w Hw. specialize (H w Hw).
  destruct (m w) as [a w'|x w'|w'] eqn:E; auto.
  split; [exact H|]. now apply (HV w a w').
Qed.

Lemma sure_pure (P : World -> Prop) (V : Prop) {A} (m : M A) R :
  (V -> sure P m R) -> sure (fun w => P w /\ V) m R.
Proof. intros H w [Hw Hv]. now apply H. Qed.

Lemma tame_text_ok s w :
  tame_text s = true -> exists v, speed_rejected s w = Ok v w.
Proof.
  intros Ht.
  destruct (speed_rejected_cases s w)
    as [(Hd & E)|[(Hd & Hi & E)|(n & Hd & Hi & E)]]; rewrite E; eauto.
  exfalso. unfold tame_text in Ht. rewrite Hd in Ht. cbn [andb] in Ht.
  apply negb_true_iff in Ht.
  destruct (proj1 (TextFacts.int_of_isdigit s Hd) Ht) as (n & Hn & _).
  congruence.
Qed.

Create HintDb sure.

Section Sure.

Variable P : World -> Prop.
Hypothesis U_logged : forall e w, P w -> P (logged e w).
Hypothesis U_game_on : forall b w, P w -> P (with_game_on b w).
Hypothesis U_handler : forall w, P w -> P (with_handler true w).
Hypothesis U_click : forall w, P w -> P (click w).
Hypothesis U_read : sure P read_file_score (fun _ => P).
Hypothesis U_end_session :
  forall n sc, sure P (end_session n sc) (fun _ => P).

Lemma su_bind {A B} (m : M A) (k : A -> M B) :
  sure P m (fun _ => P) -> (forall a, sure P (k a) (fun _ => P)) ->
  sure P (bind m k) (fun _ => P).
Proof. intros Hm Hk. now apply (sure_bind P m k (fun _ => P)). Qed.

Lemma su_ret {A} (a : A) : sure P (ret a) (fun _ => P).
Proof. intros w Hw. exact Hw. Qed.

Lemma su_gets {A} (f : World -> A) : sure P (gets f) (fun _ => P).
Proof. intros w Hw. exact Hw. Qed.

Lemma su_blocked {A} : sure P (@blocked A) (fun _ => P).
Proof. intros w Hw. exact I. Qed.

Lemma su_emit e : sure P (emit e) (fun _ => P).
Proof. intros w Hw. now apply U_logged. Qed.

Lemma su_turtle t op : sure P (turtle t op) (fun _ => P).
Proof. apply su_emit. Qed.

Lemma su_sleep ms : sure P (sleep ms) (fun _ => P).
Proof. apply su_emit. Qed.

Lemma su_game_on b : sure P (modify (with_game_on b)) (fun _ => P).
Proof. intros w Hw. now apply U_game_on. Qed.

Lemma su_handler : sure P (modify (with_handler true)) (fun _ => P).
Proof. intros w Hw. now apply U_handler. Qed.

Lemma su_pump n : sure P (pump n) (fun _ => P).
Proof.
  intros w Hw. cbn. induction n; simpl; [exact Hw|now apply U_click].
Qed.

#[local] Hint Resolve su_ret su_gets su_blocked su_emit su_turtle su_sleep
  su_game_on su_handler su_pump U_read U_end_session : sure.

(** Splits a computation along its binds and conditionals and closes the
    leaves with the lemmas already known. *)
Ltac surely :=
  repeat first
    [ solve [auto with sure]
    | apply su_bind; [|intros ?]
    | match goal with
      | |- sure _ (if ?b then _ else _) _ => destruct b
      | |- sure _ (match ?x with _ => _ end) _ => destruct x
      end ].

Lemma su_score_update sc : sure P (score_update sc) (fun _ => P).
Proof. unfold score_update. surely. Qed.

Lemma su_window_update n : sure P (window_update n) (fun _ => P).
Proof. unfold window_update. surely. Qed.

Lemma su_textinput d a : sure P (textinput d a) (fun _ => P).
Proof. unfold textinput. surely. Qed.

Lemma su_goodbye : sure P show_goodbye_message (fun _ => P).
Proof. unfold show_goodbye_message. surely. Qed.
#[local] Hint Resolve su_score_update su_window_update su_textinput
  su_goodbye : sure.

Lemma su_bite_scan n sc h segments :
  sure P (bite_scan n sc h segments) (fun _ => P).
Proof. induction segments; simpl; surely. Qed.

Lemma su_bind_keys : sure P bind_keys (fun _ => P).
Proof. unfold bind_keys. surely. Qed.

Lemma su_start_screen n : sure P (show_start_screen n) (fun _ => P).
Proof. unfold show_start_screen. surely. Qed.
#[local] Hint Resolve su_bite_scan su_bind_keys su_start_screen : sure.

Lemma su_speed_rejected s :
  tame_text s = true -> sure P (speed_rejected s) (fun _ => P).
Proof.
  intros Ht w Hw. destruct (tame_text_ok s w Ht) as (v & E). now rewrite E.
Qed.

Lemma su_asked d a :
  sure P (textinput d a) (fun r w => P w /\ r = answer a).
Proof.
  apply sure_value; [apply su_textinput|].
  intros w r w' E. unfold textinput in E. cbn in E. now inversion E.
Qed.

Lemma su_validate_speed rs : forall s,
  tame_text s = true ->
  forallb (fun r => tame_ask (retry_ask r)) rs = true ->
  sure P (validate_speed rs s) (fun _ => P).
Proof.
  induction rs as [|r rs IH]; intros s Hs Hrs; simpl.
  - apply su_bind; [now apply su_speed_rejected|]. intros v. surely.
  - cbn [forallb] in Hrs. apply andb_prop in Hrs. destruct Hrs as [Hr Hrs].
    apply su_bind; [now apply su_speed_rejected|]. intros v.
    destruct v; [|surely].
    do 4 (apply su_bind; [solve [surely]|intros ?]).
    apply (sure_bind P _ _ _ _ (su_asked AskSpeedAgain (retry_ask r))).
    intros ans. apply sure_pure. intros ->.
    unfold tame_ask in Hr.
    destruct (answer (retry_ask r)) as [s2|]; [now apply IH|surely].
Qed.

Lemma su_prompt_speed e :
  tame_session e = true -> sure P (prompt_speed e) (fun _ => P).
Proof.
  intros Ht. unfold tame_session in Ht. apply andb_prop in Ht.
  destruct Ht as [Ha Hrs]. unfold prompt_speed.
  apply (sure_bind P _ _ _ _ (su_asked AskSpeed (speed_ask e))).
  intros ans. apply sure_pure. intros ->.
  unfold tame_ask in Ha.
  destruct (answer (speed_ask e)) as [s|];
    [now apply su_validate_speed|surely].
Qed.

Context {ops : SnakeOps}.

Lemma su_checks e g s : sure P (checks e g s) (fun _ => P).
Proof. unfold checks. surely. Qed.
#[local] Hint Resolve su_checks : sure.

Lemma su_tick e g : sure P (tick e g) (fun _ => P).
Proof. unfold tick. surely. Qed.
#[local] Hint Resolve su_tick : sure.

Lemma su_play es : forall g, sure P (play es g) (fun _ => P).
Proof. induction es as [|e es IH]; intros g; simpl; surely. Qed.

End Sure.

Lemma readable_same_file w w' :
  score_file w' = score_file w -> readable w -> readable w'.
Proof. intros E (b & Hb). exists b. now apply (stored_same_file w). Qed.

Lemma sound_same_file w w' :
  score_file w' = score_file w -> sound_file w -> sound_file w'.
Proof. intros E H s Hs. apply H. now rewrite <- E. Qed.

Lemma readable_sound w : readable w -> sound_file w.
Proof. intros (b & s & Hs & Hb) s' Hs'. congruence. Qed.

Lemma readable_read : sure readable read_file_score (fun _ => readable).
Proof.
  intros w (b & Hb). rewrite (stored_read w b Hb).
  exists b. now apply (stored_same_file w).
Qed.

Lemma readable_end_session n sc :
  sure readable (end_session n sc) (fun _ => readable).
Proof.
  intros w (b & Hb). rewrite (end_session_spec n sc w b Hb).
  exists (shown_best sc b). now apply stored_ended.
Qed.

Lemma Score_init_readable :
  sure sound_file Score_init (fun _ => readable).
Proof.
  intros w Hw. destruct (Score_init_cases w) as (w' & es & E & _ & _ & _ & _ & F).
  rewrite E. destruct (score_file w) as [s|] eqn:Hs.
  - destruct (Py.int s) as [b|] eqn:Hb; [|now destruct (Hw s Hs)].
    exists b, s. now split.
  - exists 0, "0"%string. now split.
Qed.

Lemma prompt_speed_value e w sp w' :
  prompt_speed e w = Ok (Some sp) w' -> exists n, Py.int sp = Some n.
Proof.
  unfold prompt_speed. intros H.
  apply bind_Ok_inv in H. destruct H as ([s|] & w1 & _ & H).
  - apply accepted_speed_is_valid in H. destruct H as (_ & n & Hn & _).
    now exists n.
  - cbn in H. discriminate H.
Qed.

Lemma sound_logged e w : sound_file w -> sound_file (logged e w).
Proof. now apply sound_same_file. Qed.

Lemma sound_game_on b w : sound_file w -> sound_file (with_game_on b w).
Proof. now apply sound_same_file. Qed.

Lemma sound_handler w : sound_file w -> sound_file (with_handler true w).
Proof. now apply sound_same_file. Qed.

Lemma sound_click w : sound_file w -> sound_file (click w).
Proof. apply sound_same_file, file_click. Qed.

Lemma readable_logged e w : readable w -> readable (logged e w).
Proof. now apply readable_same_file. Qed.

Lemma readable_game_on b w : readable w -> readable (with_game_on b w).
Proof. now apply readable_same_file. Qed.

Lemma readable_click w : readable w -> readable (click w).
Proof. apply readable_same_file, file_click. Qed.

Create HintDb files.
#[local] Hint Resolve sound_logged sound_game_on sound_handler sound_click
  readable_logged readable_game_on readable_click readable_read
  readable_end_session readable_sound : files.

Section NoException.

Context {ops : SnakeOps}.

(** One more step of a computation that keeps the file sound. *)
Ltac sound_step lem :=
  apply (sure_bind sound_file _ _ (fun _ => sound_file));
  [apply lem; auto with files|intros ?].

Lemma main_sound e :
  tame_session e = true -> sure sound_file (main e) (fun _ => sound_file).
Proof.
  intros Ht. unfold main.
  sound_step su_game_on. sound_step su_emit. sound_step su_emit.
  apply (sure_bind sound_file _ _
           (fun r w => sound_file w
                       /\ forall sp, r = Some sp -> exists n, Py.int sp = Some n)).
  { apply sure_value.
    - apply su_prompt_speed; auto with files.
    - intros w r w' E sp ->. now apply (prompt_speed_value e w sp w'). }
  intros [sp|]; apply sure_pure; intros V;
    [|apply su_ret].
  destruct (V sp eq_refl) as (n & Hn). rewrite Hn.
  sound_step su_emit. sound_step su_handler. sound_step su_start_screen.
  sound_step su_emit. sound_step su_ret. sound_step su_emit.
  apply (sure_bind sound_file _ _ (fun _ => readable));
    [apply Score_init_readable|]. intros sc.
  apply sure_weaken with (P' := readable) (Q' := fun _ => readable);
    [|auto|intros; now apply readable_sound].
  apply su_bind; [apply su_emit; auto with files|]. intros ?.
  apply su_bind; [apply su_play; auto with files|]. intros g.
  apply su_bind; [apply su_gets|]. intros closed.
  destruct closed; apply su_ret.
Qed.

Lemma replay_sound rs :
  forallb (fun r => tame_session (session r)) rs = true ->
  sure sound_file (replay rs) (fun _ => sound_file).
Proof.
  induction rs as [|r rs IH]; intros Ht; simpl.
  - sound_step su_gets. destruct (negb a); [apply su_blocked|apply su_ret].
  - cbn [forallb] in Ht. apply andb_prop in Ht. destruct Ht as [Hr Hrs].
    sound_step su_gets. destruct (negb a); [|apply su_ret].
    sound_step su_textinput.
    destruct (String.eqb _ "y").
    + sound_step su_emit.
      apply (sure_bind sound_file _ _ (fun _ => sound_file));
        [now apply main_sound|]. intros ?. now apply IH.
    + destruct (_ || _); [apply su_goodbye; auto with files|].
      sound_step su_emit. sound_step su_emit. sound_step su_turtle.
      sound_step su_window_update. sound_step su_sleep.
      sound_step su_turtle. now apply IH.
Qed.

Lemma program_sound e :
  tame_program e = true -> sure sound_file (program e) (fun _ => sound_file).
Proof.
  intros Ht. unfold tame_program in Ht. apply andb_prop in Ht.
  destruct Ht as [H1 Hrs]. unfold program.
  sound_step su_emit. sound_step su_emit.
  apply (sure_bind sound_file _ _ (fun _ => sound_file));
    [now apply main_sound|]. intros again.
  apply (sure_bind sound_file _ _ (fun _ => sound_file)).
  { destruct again; [now apply replay_sound|apply su_ret]. }
  intros ?. sound_step su_emit. apply su_pump; auto with files.
Qed.


End NoException.

